(** * Sakha.ai web client: the localization manager and the chat controller

    A shallow embedding of [I18n] (the translation lookup, the language
    switch) and of [SakhaAI] (the message formatter, the send path, the mode
    switch, the health check), with the properties of the client stated over
    it.  JavaScript strings are sequences of UTF-16 code units, values are
    the JSON values a translation document or a server reply can hold, and
    the methods run in a state monad with exceptions over the page. *)

From Stdlib Require Import List NArith ZArith Bool Lia Ascii.
From Stdlib Require String.
From Stdlib Require Import Numbers.DecimalString.
Import ListNotations String.StringSyntax.

Set Warnings "-register-all".
Delimit Scope string_scope with string.

(** ** Strings *)

Module Js.

(** A UTF-16 code unit. *)
Definition char := N.

(** A JavaScript string. *)
Definition jstring := list char.

(** The string of an ASCII literal of the source. *)
Definition lit (s : String.string) : jstring :=
  map N_of_ascii (String.list_ascii_of_string s).

Arguments lit s%_string.

Definition LF : char := 10%N.
Definition DQUOTE : char := 34%N.
Definition DOT : char := 46%N.
Definition BULLET : char := 8226%N.

Fixpoint eqb (a b : jstring) : bool :=
  match a, b with
  | [], [] => true
  | x :: a', y :: b' => N.eqb x y && eqb a' b'
  | _, _ => false
  end.

Fixpoint starts_with (p s : jstring) : bool :=
  match p, s with
  | [], _ => true
  | x :: p', y :: s' => N.eqb x y && starts_with p' s'
  | _ :: _, [] => false
  end.

Fixpoint take_while (f : char -> bool) (s : jstring) : jstring :=
  match s with
  | [] => []
  | c :: rest => if f c then c :: take_while f rest else []
  end.

(** LineTerminator: LF, CR, LS, PS.  The regular expression [.] matches any
    code unit but these, and [^] and [$] under the [m] flag look for them. *)
Definition is_line_terminator (c : char) : bool :=
  (N.eqb c 10 || N.eqb c 13 || N.eqb c 8232 || N.eqb c 8233)%N.

(** The class [\s], which is also what [String.prototype.trim] strips:
    WhiteSpace and LineTerminator. *)
Definition is_space (c : char) : bool :=
  ((N.leb 9 c && N.leb c 13) || N.eqb c 32 || N.eqb c 160 || N.eqb c 5760
   || (N.leb 8192 c && N.leb c 8202) || N.eqb c 8232 || N.eqb c 8233
   || N.eqb c 8239 || N.eqb c 8287 || N.eqb c 12288 || N.eqb c 65279)%N.

(** The class [\w]: ASCII letters, digits and the underscore. *)
Definition is_word (c : char) : bool :=
  ((N.leb 48 c && N.leb c 57) || (N.leb 65 c && N.leb c 90)
   || (N.leb 97 c && N.leb c 122) || N.eqb c 95)%N.

(** [s.trim()] *)
Definition trim_start (s : jstring) : jstring :=
  skipn (length (take_while is_space s)) s.

Definition trim (s : jstring) : jstring :=
  rev (trim_start (rev (trim_start s))).

(** [s.split(sep)] for a separator of one code unit: never the empty list. *)
Fixpoint split (sep : char) (s : jstring) : list jstring :=
  match s with
  | [] => [[]]
  | c :: rest =>
      if N.eqb c sep then [] :: split sep rest
      else match split sep rest with
           | [] => [[c]]
           | seg :: segs => (c :: seg) :: segs
           end
  end.

(** *** [String.prototype.replace] with a global regular expression

    A pattern is given by its matcher: at a position of the input, told
    whether the position starts a line (what [^] asks under the [m] flag),
    it answers with the replacement text and the number of code units the
    match covers.  The scan goes left to right and resumes after each
    match; every pattern of this program covers at least one code unit, a
    match of none would resume one code unit further. *)
Definition matcher := bool -> jstring -> option (jstring * nat).

Fixpoint replace_from (m : matcher) (skip : nat) (bol : bool) (s : jstring)
  : jstring :=
  match s with
  | [] => []
  | c :: rest =>
      let bol' := is_line_terminator c in
      match skip with
      | S k => replace_from m k bol' rest
      | O =>
          match m bol s with
          | Some (out, S k) => out ++ replace_from m k bol' rest
          | Some (out, O) => out ++ c :: replace_from m 0 bol' rest
          | None => c :: replace_from m 0 bol' rest
          end
      end
  end.

Definition replace_all (m : matcher) (s : jstring) : jstring :=
  replace_from m 0 true s.

(** [(.*?)] followed by the literal [closer]: the shortest run of code units
    that are no line terminators and that [closer] follows. *)
Fixpoint lazy_dots_until (closer s : jstring) : option jstring :=
  if starts_with closer s then Some []
  else match s with
       | [] => None
       | c :: rest =>
           if is_line_terminator c then None
           else option_map (cons c) (lazy_dots_until closer rest)
       end.

(** [/D(.*?)D/g] replaced by [before $1 after], for a literal [D]. *)
Definition delimited (delim before after : jstring) : matcher :=
  fun _ s =>
    if starts_with delim s then
      match lazy_dots_until delim (skipn (length delim) s) with
      | Some g => Some (before ++ g ++ after,
                        length delim + length g + length delim)
      | None => None
      end
    else None.

(** A literal pattern replaced by a literal. *)
Definition literal (pat out : jstring) : matcher :=
  fun _ s => if starts_with pat s then Some (out, length pat) else None.

(** [/^P(.*$)/gm] replaced by [before $1 after], for a literal [P]: the
    greedy [.*] runs to the end of the line, where [$] holds. *)
Definition line_rule (prefix before after : jstring) : matcher :=
  fun bol s =>
    if bol && starts_with prefix s then
      let g := take_while (fun c => negb (is_line_terminator c))
                          (skipn (length prefix) s) in
      Some (before ++ g ++ after, length prefix + length g)
    else None.

(** The start of the last occurrence of [needle] in [s]. *)
Fixpoint last_index_of (needle s : jstring) : option nat :=
  match s with
  | [] => if starts_with needle [] then Some 0 else None
  | _ :: rest =>
      match last_index_of needle rest with
      | Some p => Some (S p)
      | None => if starts_with needle s then Some 0 else None
      end
  end.

End Js.

Import Js.

(** ** [SakhaAI.formatMessage] *)

(** [/\*\*(.*?)\*\*/g] to [<strong>$1</strong>] *)
Definition bold_rule : matcher :=
  delimited (lit "**") (lit "<strong>") (lit "</strong>").

(** [/\*(.*?)\*/g] to [<em>$1</em>] *)
Definition italic_rule : matcher :=
  delimited (lit "*") (lit "<em>") (lit "</em>").

(** [/\n/g] to [<br>] *)
Definition break_rule : matcher := literal [LF] (lit "<br>").

(** The code units [[^\s<>]] admits. *)
Definition is_url_char (c : char) : bool :=
  negb (is_space c) && negb (N.eqb c 60) && negb (N.eqb c 62).

(** [/https?:\/\/[^\s<>]+/g] to an anchor on [$&]. *)
Definition url_rule : matcher :=
  fun _ s =>
    let scheme (p : jstring) :=
      if starts_with p s then
        match take_while is_url_char (skipn (length p) s) with
        | [] => None
        | tail => Some (p ++ tail)
        end
      else None in
    let found :=
      match scheme (lit "https://") with
      | Some u => Some u
      | None => scheme (lit "http://")
      end in
    match found with
    | Some u =>
        Some (lit "<a href=" ++ [DQUOTE] ++ u ++ [DQUOTE]
              ++ lit " target=" ++ [DQUOTE] ++ lit "_blank" ++ [DQUOTE]
              ++ lit " rel=" ++ [DQUOTE] ++ lit "noopener noreferrer"
              ++ [DQUOTE] ++ lit ">" ++ u ++ lit "</a>",
              length u)
    | None => None
    end.

(** [/---/g] to [<hr>] *)
Definition rule_rule : matcher := literal (lit "---") (lit "<hr>").

(** [/^### (.*$)/gm] and [/^## (.*$)/gm] *)
Definition h4_rule : matcher := line_rule (lit "### ") (lit "<h4>") (lit "</h4>").
Definition h3_rule : matcher := line_rule (lit "## ") (lit "<h3>") (lit "</h3>").

(** [/^• (.*$)/gm] and [/^- (.*$)/gm] *)
Definition bullet_rule : matcher :=
  line_rule (BULLET :: lit " ") (lit "<li>") (lit "</li>").
Definition dash_rule : matcher := line_rule (lit "- ") (lit "<li>") (lit "</li>").

(** [<li>.*<\/li>] at the head of [s]: the greedy [.*] stays on the line and
    gives back to the last [</li>] of it.  The length of the match. *)
Definition li_item (s : jstring) : option nat :=
  if starts_with (lit "<li>") s then
    let line := take_while (fun c => negb (is_line_terminator c)) (skipn 4 s) in
    match last_index_of (lit "</li>") line with
    | Some p => Some (4 + p + 5)
    | None => None
    end
  else None.

(** [(\s*<li>.*<\/li>)*] at the head of [s]: the length of the match.  Each
    round covers at least nine code units, so [length s] rounds are enough. *)
Fixpoint li_more (rounds : nat) (s : jstring) : nat :=
  match rounds with
  | O => 0
  | S r =>
      let ws := length (take_while is_space s) in
      match li_item (skipn ws s) with
      | Some l => ws + l + li_more r (skipn (ws + l) s)
      | None => 0
      end
  end.

(** [/(<li>.*<\/li>)(\s*<li>.*<\/li>)*/g] to [<ul>$&</ul>] *)
Definition list_rule : matcher :=
  fun _ s =>
    match li_item s with
    | Some l =>
        let n := l + li_more (length s) (skipn l s) in
        Some (lit "<ul>" ++ firstn n s ++ lit "</ul>", n)
    | None => None
    end.

Definition formatMessage (content : jstring) : jstring :=
  let formatted := replace_all bold_rule content in
  let formatted := replace_all italic_rule formatted in
  let formatted := replace_all break_rule formatted in
  let formatted := replace_all url_rule formatted in
  let formatted := replace_all rule_rule formatted in
  let formatted := replace_all h4_rule formatted in
  let formatted := replace_all h3_rule formatted in
  let formatted := replace_all bullet_rule formatted in
  let formatted := replace_all dash_rule formatted in
  replace_all list_rule formatted.

(** ** Values *)

(** The values the client handles: what [JSON.parse] builds, [undefined],
    and the objects of the host that a property lookup can reach through a
    prototype (built-in functions, the prototypes themselves).  Numbers are
    the integers that a double holds exactly and JavaScript prints as
    their decimal digits (below [2^53] in magnitude); the client only tests
    numbers against zero and prints them.  Fractions, the exponent form of
    the numbers from [1e21] on, [NaN] and the infinities are left out.
    The members of an object are listed with their names, and a name
    listed twice stands for its first entry. *)
Inductive jvalue : Type :=
| JUndefined
| JNull
| JBool (b : bool)
| JNum (n : Z)
| JStr (s : jstring)
| JArr (elems : list jvalue)
| JObj (props : list (jstring * jvalue))
| JHost (callable : bool) (name : jstring).

(** An element of the document that carries [data-mode], or that
    [this.modeButtons] holds.  [mode_btn] tells whether the element is one
    of [this.modeButtons], the list that [initializeElements] took of the
    elements of the class [mode-btn] once, when the controller was built:
    an element that got the class later, or came into the document later,
    is not in that list. *)
Record ModeControl : Type := {
  mode_btn : bool;
  data_mode : option jstring;
  active : bool
}.

(** What [document.querySelector] answers: a SyntaxError, [null], the
    control at a position of the document, or an element that is no mode
    control. *)
Inductive QueryResult : Type :=
| QSyntaxError
| QNull
| QControl (i : nat)
| QOther.

(** What the program takes from its host and does not define itself. *)
Record Host : Type := {
  (** the property [k] as the prototype chain of [v] holds it, for a [k]
      that is no own property of [v] *)
  inherited : jvalue -> jstring -> option jvalue;
  (** ToString of an object: the [toString] and [valueOf] methods its
      prototype chain finds; [None] when they raise a TypeError *)
  object_to_string : jvalue -> option jstring;
  (** [document.querySelector] on the selector text [[data-mode="m"]] for
      an [m] that holds a quote, a backslash, a line break, a NUL or a
      surrogate, which the CSS parser does not read as the plain value [m] *)
  css_query : jstring -> list ModeControl -> QueryResult
}.

Definition typeof (v : jvalue) : jstring :=
  match v with
  | JUndefined => lit "undefined"
  | JNull => lit "object"
  | JBool _ => lit "boolean"
  | JNum _ => lit "number"
  | JStr _ => lit "string"
  | JArr _ | JObj _ => lit "object"
  | JHost callable _ => if callable then lit "function" else lit "object"
  end.

(** ToBoolean *)
Definition truthy (v : jvalue) : bool :=
  match v with
  | JUndefined | JNull => false
  | JBool b => b
  | JNum n => negb (Z.eqb n 0)
  | JStr s => negb (eqb s [])
  | JArr _ | JObj _ | JHost _ _ => true
  end.

Definition is_string (v : jvalue) : bool :=
  match v with JStr _ => true | _ => false end.

Fixpoint assoc (k : jstring) (props : list (jstring * jvalue)) : option jvalue :=
  match props with
  | [] => None
  | (k', v) :: rest => if eqb k k' then Some v else assoc k rest
  end.

Fixpoint digits_value (acc : N) (s : jstring) : option N :=
  match s with
  | [] => Some acc
  | c :: rest =>
      if (N.leb 48 c && N.leb c 57)%N
      then digits_value (acc * 10 + (c - 48))%N rest
      else None
  end.

(** A property name that is an array index: a decimal numeral without a
    leading zero. *)
Definition array_index (k : jstring) : option N :=
  match k with
  | [] => None
  | [48%N] => Some 0%N
  | 48%N :: _ => None
  | _ => digits_value 0 k
  end.

Definition nth_N {A} (l : list A) (i : N) : option A :=
  if (i <? N.of_nat (length l))%N then nth_error l (N.to_nat i) else None.

(** The own properties of a value: the members of an object, the elements
    and the length of an array, the code units and the length of a string. *)
Definition own_property (v : jvalue) (k : jstring) : option jvalue :=
  match v with
  | JObj props => assoc k props
  | JArr elems =>
      if eqb k (lit "length") then Some (JNum (Z.of_nat (length elems)))
      else match array_index k with
           | Some i => nth_N elems i
           | None => None
           end
  | JStr s =>
      if eqb k (lit "length") then Some (JNum (Z.of_nat (length s)))
      else match array_index k with
           | Some i => option_map (fun c => JStr [c]) (nth_N s i)
           | None => None
           end
  | _ => None
  end.

(** [k in v], for a [v] that is an object *)
Definition has_property (h : Host) (v : jvalue) (k : jstring) : bool :=
  match own_property v k with
  | Some _ => true
  | None => match inherited h v k with Some _ => true | None => false end
  end.

(** [v[k]], for a [v] that is neither [null] nor [undefined] *)
Definition get_property (h : Host) (v : jvalue) (k : jstring) : jvalue :=
  match own_property v k with
  | Some x => x
  | None => match inherited h v k with Some x => x | None => JUndefined end
  end.

(** [v[k]] or [v.k]; [None] is the TypeError of a lookup on [null] or
    [undefined]. *)
Definition member (h : Host) (v : jvalue) (k : jstring) : option jvalue :=
  match v with
  | JUndefined | JNull => None
  | _ => Some (get_property h v k)
  end.

(** ToString of a number, for the integers of [JNum]: the decimal digits,
    with a minus sign below zero. *)
Definition number_to_string (n : Z) : jstring :=
  lit (NilEmpty.string_of_int (Z.to_int n)).

(** ToString; [None] is a TypeError. *)
Definition to_string (h : Host) (v : jvalue) : option jstring :=
  match v with
  | JUndefined => Some (lit "undefined")
  | JNull => Some (lit "null")
  | JBool b => Some (if b then lit "true" else lit "false")
  | JNum n => Some (number_to_string n)
  | JStr s => Some s
  | JArr _ | JObj _ | JHost _ _ => object_to_string h v
  end.

(** ** [I18n.t] *)

(** The loop over the segments of the key: [Some] of the value the path
    leads to, [None] where the loop gives up. *)
Fixpoint walk (h : Host) (value : jvalue) (keys : list jstring)
  : option jvalue :=
  match keys with
  | [] => Some value
  | k :: rest =>
      if truthy value && eqb (typeof value) (lit "object")
         && has_property h value k
      then walk h (get_property h value k) rest
      else None
  end.

(** [/\{\{(\w+)\}\}/] at the head of [s]: the name and the length of the
    match.  The greedy [\w+] takes the whole run of word characters, no
    shorter run can be followed by a brace. *)
Definition placeholder (s : jstring) : option (jstring * nat) :=
  if starts_with (lit "{{") s then
    match take_while is_word (skipn 2 s) with
    | [] => None
    | name =>
        if starts_with (lit "}}") (skipn (2 + length name) s)
        then Some (name, 2 + length name + 2)
        else None
    end
  else None.

(** The callback [(match, param) => params[param] || match], and the
    conversion of what it returns to a string. *)
Definition param_text (h : Host) (params : jvalue) (param matched : jstring)
  : option jstring :=
  match member h params param with
  | None => None
  | Some p => if truthy p then to_string h p else Some matched
  end.

(** [value.replace(/\{\{(\w+)\}\}/g, callback)] *)
Fixpoint substitute (h : Host) (params : jvalue) (skip : nat) (s : jstring)
  : option jstring :=
  match s with
  | [] => Some []
  | c :: rest =>
      match skip with
      | S k => substitute h params k rest
      | O =>
          match placeholder s with
          | Some (name, len) =>
              match param_text h params name (firstn len s),
                    substitute h params (len - 1) rest with
              | Some out, Some tail => Some (out ++ tail)
              | _, _ => None
              end
          | None => option_map (cons c) (substitute h params 0 rest)
          end
      end
  end.

(** [t(key, params = {})] over [this.translations]; [None] is a thrown
    TypeError. *)
Definition t (h : Host) (translations : jvalue) (key : jstring) (params : jvalue)
  : option jvalue :=
  let params := match params with JUndefined => JObj [] | _ => params end in
  match walk h translations (split DOT key) with
  | None => Some (JStr key)
  | Some (JStr s) => option_map JStr (substitute h params 0 s)
  | Some v => Some v
  end.

(** *** A host to run examples on

    A host cut down to what the examples need: every object, arrays
    included, inherits the properties of [Object.prototype] and nothing
    else, and an inherited function goes by the name of its property.  A
    browser adds the methods of [Array.prototype], [String.prototype] and
    the like and prints its functions under their own names; the
    statements over an arbitrary host cover it. *)
Definition object_prototype_names : list jstring :=
  [ lit "constructor"; lit "hasOwnProperty"; lit "isPrototypeOf";
    lit "propertyIsEnumerable"; lit "toLocaleString"; lit "toString";
    lit "valueOf"; lit "__defineGetter__"; lit "__defineSetter__";
    lit "__lookupGetter__"; lit "__lookupSetter__" ].

Definition plain_inherited (v : jvalue) (k : jstring) : option jvalue :=
  if existsb (eqb k) object_prototype_names then Some (JHost true k)
  else if eqb k (lit "__proto__") then
    match v with
    | JHost false _ => Some JNull
    | _ => Some (JHost false (lit "Object.prototype"))
    end
  else None.

Fixpoint join (sep : jstring) (parts : list jstring) : jstring :=
  match parts with
  | [] => []
  | [p] => p
  | p :: rest => p ++ sep ++ join sep rest
  end.

Fixpoint plain_to_string (v : jvalue) : option jstring :=
  match v with
  | JUndefined => Some (lit "undefined")
  | JNull => Some (lit "null")
  | JBool b => Some (if b then lit "true" else lit "false")
  | JNum n => Some (number_to_string n)
  | JStr s => Some s
  | JArr elems =>
      let fix each (l : list jvalue) : option (list jstring) :=
        match l with
        | [] => Some []
        | x :: rest =>
            let shown := match x with
                         | JUndefined | JNull => Some []
                         | _ => plain_to_string x
                         end in
            match shown, each rest with
            | Some a, Some b => Some (a :: b)
            | _, _ => None
            end
        end in
      option_map (join (lit ",")) (each elems)
  | JObj props =>
      match assoc (lit "toString") props with
      | None => Some (lit "[object Object]")
      | Some _ => None
      end
  | JHost callable name =>
      Some (if callable
            then lit "function " ++ name ++ lit "() { [native code] }"
            else lit "[object Object]")
  end.

Definition plain_host : Host :=
  {| inherited := plain_inherited;
     object_to_string := plain_to_string;
     css_query := fun _ _ => QSyntaxError |}.


(** ** The page

    The state the two classes share: the [I18n] instance at [window.i18n],
    [localStorage], the document, the [SakhaAI] instance and the elements it
    holds.  [index.html] is not part of the sources: the elements the
    controller holds are taken to exist, to be distinct from one another
    and from the elements that carry a localization marker, and to lie
    inside none of these.

    The document is kept as the lists of the elements the two classes look
    for, not as a tree.  What is assigned to [innerHTML] or [textContent]
    is kept as the string assigned: the elements a browser builds from
    markup, and the children an assignment removes, are not followed.  So
    [localized], [modeControls] and [languageSelector] describe a document
    in which no reply and no translation brings in an element with a
    localization marker, with [data-mode] or with the id
    [language-selector], and in which no localized element lies inside
    another; on other documents the later passes of [applyTranslations]
    and the later queries see elements that these fields do not have. *)

Record I18n : Type := {
  currentLanguage : jstring;
  translations : jvalue
}.

(** What an element shows: the last of [textContent] and [innerHTML]
    assigned to it. *)
Inductive Content : Type :=
| TextContent (s : jstring)
| InnerHTML (s : jstring).

(** An element with [data-i18n], [data-i18n-html] or
    [data-i18n-placeholder]; [el_placeholder] is the [placeholder]
    attribute of an [input] or [textarea]. *)
Record Localized : Type := {
  tagName : jstring;
  data_i18n : option jstring;
  data_i18n_html : option jstring;
  data_i18n_placeholder : option jstring;
  el_placeholder : jstring;
  el_content : Content
}.

(** A [select] element: the values of its options and its value. *)
Record Select : Type := {
  options : list jstring;
  selected : jstring
}.

(** A child of the message container, as [addMessage] builds it. *)
Record Message : Type := {
  className : jstring;
  avatar : jstring;
  errorStyle : bool;
  body : Content
}.

(** A request to the environment.  [console] output is left out. *)
Inductive Effect : Type :=
| Fetch (url : jstring)
| Post (url : jstring) (payload : list (jstring * jstring))
| SetItem (key item : jstring)
| Dispatch (type language : jstring).

Record World : Type := {
  (** [window.i18n] *)
  window_i18n : option I18n;
  localStorage : list (jstring * jstring);
  (** what the page has asked of its environment, oldest first *)
  effects : list Effect;
  (** [document.title] *)
  title : jstring;
  (** the elements with a localization marker, in document order *)
  localized : list Localized;
  (** [#language-selector] *)
  languageSelector : option Select;
  (** the elements with [data-mode] and those of [this.modeButtons], in
      document order *)
  modeControls : list ModeControl;
  isConnected : bool;
  currentMode : jstring;
  (** [messageInput.value] *)
  inputValue : jstring;
  (** [messageInput.style.height] *)
  inputHeight : jstring;
  (** [messageInput.placeholder] *)
  inputPlaceholder : jstring;
  (** [sendButton.disabled] *)
  sendDisabled : bool;
  (** [welcomeMessage.style.display] *)
  welcomeDisplay : jstring;
  (** [chatContainer.style.display] *)
  chatDisplay : jstring;
  (** the class [show] of [loadingOverlay] *)
  loadingShown : bool;
  (** the class [show] of [crisisModal] *)
  crisisShown : bool;
  (** the class [disconnected] of [statusDot] *)
  statusDisconnected : bool;
  (** [statusText.textContent] *)
  statusText : jstring;
  (** the children of [messagesContainer]: the transcript *)
  messages : list Message;
  (** the timers [scrollToBottom] has set *)
  scrollTimers : nat
}.

Definition set_window_i18n (x : option I18n) (w : World) : World :=
  {| window_i18n := x; localStorage := localStorage w;
     effects := effects w; title := title w; localized := localized w;
     languageSelector := languageSelector w;
     modeControls := modeControls w; isConnected := isConnected w;
     currentMode := currentMode w; inputValue := inputValue w;
     inputHeight := inputHeight w; inputPlaceholder := inputPlaceholder w;
     sendDisabled := sendDisabled w; welcomeDisplay := welcomeDisplay w;
     chatDisplay := chatDisplay w; loadingShown := loadingShown w;
     crisisShown := crisisShown w;
     statusDisconnected := statusDisconnected w;
     statusText := statusText w; messages := messages w;
     scrollTimers := scrollTimers w |}.

Definition set_localStorage (x : list (jstring * jstring)) (w : World) : World :=
  {| window_i18n := window_i18n w; localStorage := x;
     effects := effects w; title := title w; localized := localized w;
     languageSelector := languageSelector w;
     modeControls := modeControls w; isConnected := isConnected w;
     currentMode := currentMode w; inputValue := inputValue w;
     inputHeight := inputHeight w; inputPlaceholder := inputPlaceholder w;
     sendDisabled := sendDisabled w; welcomeDisplay := welcomeDisplay w;
     chatDisplay := chatDisplay w; loadingShown := loadingShown w;
     crisisShown := crisisShown w;
     statusDisconnected := statusDisconnected w;
     statusText := statusText w; messages := messages w;
     scrollTimers := scrollTimers w |}.

Definition set_effects (x : list Effect) (w : World) : World :=
  {| window_i18n := window_i18n w; localStorage := localStorage w;
     effects := x; title := title w; localized := localized w;
     languageSelector := languageSelector w;
     modeControls := modeControls w; isConnected := isConnected w;
     currentMode := currentMode w; inputValue := inputValue w;
     inputHeight := inputHeight w; inputPlaceholder := inputPlaceholder w;
     sendDisabled := sendDisabled w; welcomeDisplay := welcomeDisplay w;
     chatDisplay := chatDisplay w; loadingShown := loadingShown w;
     crisisShown := crisisShown w;
     statusDisconnected := statusDisconnected w;
     statusText := statusText w; messages := messages w;
     scrollTimers := scrollTimers w |}.

Definition set_title (x : jstring) (w : World) : World :=
  {| window_i18n := window_i18n w; localStorage := localStorage w;
     effects := effects w; title := x; localized := localized w;
     languageSelector := languageSelector w;
     modeControls := modeControls w; isConnected := isConnected w;
     currentMode := currentMode w; inputValue := inputValue w;
     inputHeight := inputHeight w; inputPlaceholder := inputPlaceholder w;
     sendDisabled := sendDisabled w; welcomeDisplay := welcomeDisplay w;
     chatDisplay := chatDisplay w; loadingShown := loadingShown w;
     crisisShown := crisisShown w;
     statusDisconnected := statusDisconnected w;
     statusText := statusText w; messages := messages w;
     scrollTimers := scrollTimers w |}.

Definition set_localized (x : list Localized) (w : World) : World :=
  {| window_i18n := window_i18n w; localStorage := localStorage w;
     effects := effects w; title := title w; localized := x;
     languageSelector := languageSelector w;
     modeControls := modeControls w; isConnected := isConnected w;
     currentMode := currentMode w; inputValue := inputValue w;
     inputHeight := inputHeight w; inputPlaceholder := inputPlaceholder w;
     sendDisabled := sendDisabled w; welcomeDisplay := welcomeDisplay w;
     chatDisplay := chatDisplay w; loadingShown := loadingShown w;
     crisisShown := crisisShown w;
     statusDisconnected := statusDisconnected w;
     statusText := statusText w; messages := messages w;
     scrollTimers := scrollTimers w |}.

Definition set_languageSelector (x : option Select) (w : World) : World :=
  {| window_i18n := window_i18n w; localStorage := localStorage w;
     effects := effects w; title := title w; localized := localized w;
     languageSelector := x; modeControls := modeControls w;
     isConnected := isConnected w; currentMode := currentMode w;
     inputValue := inputValue w; inputHeight := inputHeight w;
     inputPlaceholder := inputPlaceholder w;
     sendDisabled := sendDisabled w; welcomeDisplay := welcomeDisplay w;
     chatDisplay := chatDisplay w; loadingShown := loadingShown w;
     crisisShown := crisisShown w;
     statusDisconnected := statusDisconnected w;
     statusText := statusText w; messages := messages w;
     scrollTimers := scrollTimers w |}.

Definition set_modeControls (x : list ModeControl) (w : World) : World :=
  {| window_i18n := window_i18n w; localStorage := localStorage w;
     effects := effects w; title := title w; localized := localized w;
     languageSelector := languageSelector w; modeControls := x;
     isConnected := isConnected w; currentMode := currentMode w;
     inputValue := inputValue w; inputHeight := inputHeight w;
     inputPlaceholder := inputPlaceholder w;
     sendDisabled := sendDisabled w; welcomeDisplay := welcomeDisplay w;
     chatDisplay := chatDisplay w; loadingShown := loadingShown w;
     crisisShown := crisisShown w;
     statusDisconnected := statusDisconnected w;
     statusText := statusText w; messages := messages w;
     scrollTimers := scrollTimers w |}.

Definition set_isConnected (x : bool) (w : World) : World :=
  {| window_i18n := window_i18n w; localStorage := localStorage w;
     effects := effects w; title := title w; localized := localized w;
     languageSelector := languageSelector w;
     modeControls := modeControls w; isConnected := x;
     currentMode := currentMode w; inputValue := inputValue w;
     inputHeight := inputHeight w; inputPlaceholder := inputPlaceholder w;
     sendDisabled := sendDisabled w; welcomeDisplay := welcomeDisplay w;
     chatDisplay := chatDisplay w; loadingShown := loadingShown w;
     crisisShown := crisisShown w;
     statusDisconnected := statusDisconnected w;
     statusText := statusText w; messages := messages w;
     scrollTimers := scrollTimers w |}.

Definition set_currentMode (x : jstring) (w : World) : World :=
  {| window_i18n := window_i18n w; localStorage := localStorage w;
     effects := effects w; title := title w; localized := localized w;
     languageSelector := languageSelector w;
     modeControls := modeControls w; isConnected := isConnected w;
     currentMode := x; inputValue := inputValue w;
     inputHeight := inputHeight w; inputPlaceholder := inputPlaceholder w;
     sendDisabled := sendDisabled w; welcomeDisplay := welcomeDisplay w;
     chatDisplay := chatDisplay w; loadingShown := loadingShown w;
     crisisShown := crisisShown w;
     statusDisconnected := statusDisconnected w;
     statusText := statusText w; messages := messages w;
     scrollTimers := scrollTimers w |}.

Definition set_inputValue (x : jstring) (w : World) : World :=
  {| window_i18n := window_i18n w; localStorage := localStorage w;
     effects := effects w; title := title w; localized := localized w;
     languageSelector := languageSelector w;
     modeControls := modeControls w; isConnected := isConnected w;
     currentMode := currentMode w; inputValue := x;
     inputHeight := inputHeight w; inputPlaceholder := inputPlaceholder w;
     sendDisabled := sendDisabled w; welcomeDisplay := welcomeDisplay w;
     chatDisplay := chatDisplay w; loadingShown := loadingShown w;
     crisisShown := crisisShown w;
     statusDisconnected := statusDisconnected w;
     statusText := statusText w; messages := messages w;
     scrollTimers := scrollTimers w |}.

Definition set_inputHeight (x : jstring) (w : World) : World :=
  {| window_i18n := window_i18n w; localStorage := localStorage w;
     effects := effects w; title := title w; localized := localized w;
     languageSelector := languageSelector w;
     modeControls := modeControls w; isConnected := isConnected w;
     currentMode := currentMode w; inputValue := inputValue w;
     inputHeight := x; inputPlaceholder := inputPlaceholder w;
     sendDisabled := sendDisabled w; welcomeDisplay := welcomeDisplay w;
     chatDisplay := chatDisplay w; loadingShown := loadingShown w;
     crisisShown := crisisShown w;
     statusDisconnected := statusDisconnected w;
     statusText := statusText w; messages := messages w;
     scrollTimers := scrollTimers w |}.

Definition set_inputPlaceholder (x : jstring) (w : World) : World :=
  {| window_i18n := window_i18n w; localStorage := localStorage w;
     effects := effects w; title := title w; localized := localized w;
     languageSelector := languageSelector w;
     modeControls := modeControls w; isConnected := isConnected w;
     currentMode := currentMode w; inputValue := inputValue w;
     inputHeight := inputHeight w; inputPlaceholder := x;
     sendDisabled := sendDisabled w; welcomeDisplay := welcomeDisplay w;
     chatDisplay := chatDisplay w; loadingShown := loadingShown w;
     crisisShown := crisisShown w;
     statusDisconnected := statusDisconnected w;
     statusText := statusText w; messages := messages w;
     scrollTimers := scrollTimers w |}.

Definition set_sendDisabled (x : bool) (w : World) : World :=
  {| window_i18n := window_i18n w; localStorage := localStorage w;
     effects := effects w; title := title w; localized := localized w;
     languageSelector := languageSelector w;
     modeControls := modeControls w; isConnected := isConnected w;
     currentMode := currentMode w; inputValue := inputValue w;
     inputHeight := inputHeight w; inputPlaceholder := inputPlaceholder w;
     sendDisabled := x; welcomeDisplay := welcomeDisplay w;
     chatDisplay := chatDisplay w; loadingShown := loadingShown w;
     crisisShown := crisisShown w;
     statusDisconnected := statusDisconnected w;
     statusText := statusText w; messages := messages w;
     scrollTimers := scrollTimers w |}.

Definition set_welcomeDisplay (x : jstring) (w : World) : World :=
  {| window_i18n := window_i18n w; localStorage := localStorage w;
     effects := effects w; title := title w; localized := localized w;
     languageSelector := languageSelector w;
     modeControls := modeControls w; isConnected := isConnected w;
     currentMode := currentMode w; inputValue := inputValue w;
     inputHeight := inputHeight w; inputPlaceholder := inputPlaceholder w;
     sendDisabled := sendDisabled w; welcomeDisplay := x;
     chatDisplay := chatDisplay w; loadingShown := loadingShown w;
     crisisShown := crisisShown w;
     statusDisconnected := statusDisconnected w;
     statusText := statusText w; messages := messages w;
     scrollTimers := scrollTimers w |}.

Definition set_chatDisplay (x : jstring) (w : World) : World :=
  {| window_i18n := window_i18n w; localStorage := localStorage w;
     effects := effects w; title := title w; localized := localized w;
     languageSelector := languageSelector w;
     modeControls := modeControls w; isConnected := isConnected w;
     currentMode := currentMode w; inputValue := inputValue w;
     inputHeight := inputHeight w; inputPlaceholder := inputPlaceholder w;
     sendDisabled := sendDisabled w; welcomeDisplay := welcomeDisplay w;
     chatDisplay := x; loadingShown := loadingShown w;
     crisisShown := crisisShown w;
     statusDisconnected := statusDisconnected w;
     statusText := statusText w; messages := messages w;
     scrollTimers := scrollTimers w |}.

Definition set_loadingShown (x : bool) (w : World) : World :=
  {| window_i18n := window_i18n w; localStorage := localStorage w;
     effects := effects w; title := title w; localized := localized w;
     languageSelector := languageSelector w;
     modeControls := modeControls w; isConnected := isConnected w;
     currentMode := currentMode w; inputValue := inputValue w;
     inputHeight := inputHeight w; inputPlaceholder := inputPlaceholder w;
     sendDisabled := sendDisabled w; welcomeDisplay := welcomeDisplay w;
     chatDisplay := chatDisplay w; loadingShown := x;
     crisisShown := crisisShown w;
     statusDisconnected := statusDisconnected w;
     statusText := statusText w; messages := messages w;
     scrollTimers := scrollTimers w |}.

Definition set_crisisShown (x : bool) (w : World) : World :=
  {| window_i18n := window_i18n w; localStorage := localStorage w;
     effects := effects w; title := title w; localized := localized w;
     languageSelector := languageSelector w;
     modeControls := modeControls w; isConnected := isConnected w;
     currentMode := currentMode w; inputValue := inputValue w;
     inputHeight := inputHeight w; inputPlaceholder := inputPlaceholder w;
     sendDisabled := sendDisabled w; welcomeDisplay := welcomeDisplay w;
     chatDisplay := chatDisplay w; loadingShown := loadingShown w;
     crisisShown := x; statusDisconnected := statusDisconnected w;
     statusText := statusText w; messages := messages w;
     scrollTimers := scrollTimers w |}.

Definition set_statusDisconnected (x : bool) (w : World) : World :=
  {| window_i18n := window_i18n w; localStorage := localStorage w;
     effects := effects w; title := title w; localized := localized w;
     languageSelector := languageSelector w;
     modeControls := modeControls w; isConnected := isConnected w;
     currentMode := currentMode w; inputValue := inputValue w;
     inputHeight := inputHeight w; inputPlaceholder := inputPlaceholder w;
     sendDisabled := sendDisabled w; welcomeDisplay := welcomeDisplay w;
     chatDisplay := chatDisplay w; loadingShown := loadingShown w;
     crisisShown := crisisShown w; statusDisconnected := x;
     statusText := statusText w; messages := messages w;
     scrollTimers := scrollTimers w |}.

Definition set_statusText (x : jstring) (w : World) : World :=
  {| window_i18n := window_i18n w; localStorage := localStorage w;
     effects := effects w; title := title w; localized := localized w;
     languageSelector := languageSelector w;
     modeControls := modeControls w; isConnected := isConnected w;
     currentMode := currentMode w; inputValue := inputValue w;
     inputHeight := inputHeight w; inputPlaceholder := inputPlaceholder w;
     sendDisabled := sendDisabled w; welcomeDisplay := welcomeDisplay w;
     chatDisplay := chatDisplay w; loadingShown := loadingShown w;
     crisisShown := crisisShown w;
     statusDisconnected := statusDisconnected w; statusText := x;
     messages := messages w; scrollTimers := scrollTimers w |}.

Definition set_messages (x : list Message) (w : World) : World :=
  {| window_i18n := window_i18n w; localStorage := localStorage w;
     effects := effects w; title := title w; localized := localized w;
     languageSelector := languageSelector w;
     modeControls := modeControls w; isConnected := isConnected w;
     currentMode := currentMode w; inputValue := inputValue w;
     inputHeight := inputHeight w; inputPlaceholder := inputPlaceholder w;
     sendDisabled := sendDisabled w; welcomeDisplay := welcomeDisplay w;
     chatDisplay := chatDisplay w; loadingShown := loadingShown w;
     crisisShown := crisisShown w;
     statusDisconnected := statusDisconnected w;
     statusText := statusText w; messages := x;
     scrollTimers := scrollTimers w |}.

Definition set_scrollTimers (x : nat) (w : World) : World :=
  {| window_i18n := window_i18n w; localStorage := localStorage w;
     effects := effects w; title := title w; localized := localized w;
     languageSelector := languageSelector w;
     modeControls := modeControls w; isConnected := isConnected w;
     currentMode := currentMode w; inputValue := inputValue w;
     inputHeight := inputHeight w; inputPlaceholder := inputPlaceholder w;
     sendDisabled := sendDisabled w; welcomeDisplay := welcomeDisplay w;
     chatDisplay := chatDisplay w; loadingShown := loadingShown w;
     crisisShown := crisisShown w;
     statusDisconnected := statusDisconnected w;
     statusText := statusText w; messages := messages w;
     scrollTimers := x |}.

(** ** A state monad with exceptions

    A method takes the page and leaves it changed, with its result or with
    [None] when it threw; what it changed before it threw stays changed.  An
    [await] is the place where the environment's reply, an argument of the
    method, comes in. *)

Definition M (A : Type) : Type := World -> World * option A.

Definition ret {A} (a : A) : M A := fun w => (w, Some a).

Definition throw {A} : M A := fun w => (w, None).

Definition bind {A B} (m : M A) (k : A -> M B) : M B :=
  fun w => match m w with
           | (w', Some a) => k a w'
           | (w', None) => (w', None)
           end.

(** [try { body } catch (error) { handler }] *)
Definition try_catch {A} (body handler : M A) : M A :=
  fun w => match body w with
           | (w', None) => handler w'
           | done => done
           end.

Definition gets {A} (f : World -> A) : M A := fun w => (w, Some (f w)).

Definition modify (f : World -> World) : M unit := fun w => (f w, Some tt).

(** The result of a computation that may throw and touches no state. *)
Definition lift {A} (o : option A) : M A := fun w => (w, o).

Definition emit (e : Effect) : M unit :=
  modify (fun w => set_effects (effects w ++ [e]) w).

Notation "x <- m ;; k" := (bind m (fun x => k))
  (at level 61, m at next level, right associativity).
Notation "m ;; k" := (bind m (fun _ => k))
  (at level 61, right associativity).

(** The environment's answer to a [fetch]: the promise rejects, or a
    response arrives with its [ok] flag and the value its body parses to
    ([None] when [response.json()] rejects). *)
Inductive Reply : Type :=
| NetworkError
| Responded (ok : bool) (json : option jvalue).

Definition await_reply (r : Reply) : M (bool * option jvalue) :=
  match r with
  | NetworkError => throw
  | Responded ok json => ret (ok, json)
  end.

(** Assignment to a DOM attribute of type DOMString ([title],
    [placeholder]); to [textContent], a nullable DOMString, which takes
    [null] and [undefined] for the empty string; to [innerHTML], which
    takes [null] for it. *)
Definition dom_string (h : Host) (v : jvalue) : option jstring := to_string h v.

Definition dom_text_content (h : Host) (v : jvalue) : option jstring :=
  match v with
  | JNull | JUndefined => Some []
  | _ => to_string h v
  end.

Definition dom_inner_html (h : Host) (v : jvalue) : option jstring :=
  match v with
  | JNull => Some []
  | _ => to_string h v
  end.

(** [select.value = v]: the option of that value gets selected, and none
    when there is no such option. *)
Definition select_value (v : jstring) (sel : Select) : Select :=
  {| options := options sel;
     selected := if existsb (eqb v) (options sel) then v else [] |}.

Definition set_el_placeholder (x : jstring) (e : Localized) : Localized :=
  {| tagName := tagName e; data_i18n := data_i18n e;
     data_i18n_html := data_i18n_html e;
     data_i18n_placeholder := data_i18n_placeholder e;
     el_placeholder := x; el_content := el_content e |}.

Definition set_el_content (x : Content) (e : Localized) : Localized :=
  {| tagName := tagName e; data_i18n := data_i18n e;
     data_i18n_html := data_i18n_html e;
     data_i18n_placeholder := data_i18n_placeholder e;
     el_placeholder := el_placeholder e; el_content := x |}.

Definition set_active (x : bool) (c : ModeControl) : ModeControl :=
  {| mode_btn := mode_btn c; data_mode := data_mode c; active := x |}.

(** [btn.classList.remove('active')] over [this.modeButtons]: the controls
    that the list holds lose the mark, the others keep theirs. *)
Definition deactivated (controls : list ModeControl) : list ModeControl :=
  map (fun btn => if mode_btn btn then set_active false btn else btn) controls.

(** [list.forEach(f)] where [f] may throw: the elements before the throw
    are updated, the others are not. *)
Fixpoint for_each {A} (f : A -> option A) (l : list A) : list A * bool :=
  match l with
  | [] => ([], true)
  | x :: rest =>
      match f x with
      | None => (x :: rest, false)
      | Some x' => let (rest', finished) := for_each f rest in
                   (x' :: rest', finished)
      end
  end.

(** [setItem] of a storage area: the entry of the key is replaced.  The
    area takes every write. *)
Fixpoint setItem (key item : jstring) (area : list (jstring * jstring))
  : list (jstring * jstring) :=
  match area with
  | [] => [(key, item)]
  | (k, v) :: rest =>
      if eqb k key then (key, item) :: rest else (k, v) :: setItem key item rest
  end.

Fixpoint getItem (key : jstring) (area : list (jstring * jstring))
  : option jstring :=
  match area with
  | [] => None
  | (k, v) :: rest => if eqb k key then Some v else getItem key rest
  end.

(** ** The two classes *)

(** [`/static/languages/${code}.json`] *)
Definition language_url (code : jstring) : jstring :=
  lit "/static/languages/" ++ code ++ lit ".json".

Section Program.

Variable h : Host.

(** *** [I18n] *)

(** The instance behind [window.i18n]; a method call on [undefined] is a
    TypeError. *)
Definition this_i18n : M I18n := fun w => (w, window_i18n w).

(** [window.i18n.t(key)] *)
Definition call_t (key : jstring) : M jvalue :=
  this <- this_i18n ;;
  lift (t h (translations this) key JUndefined).

Definition updateLanguageSelector : M unit :=
  this <- this_i18n ;;
  modify (fun w =>
    match languageSelector w with
    | Some selector =>
        set_languageSelector
          (Some (select_value (currentLanguage this) selector)) w
    | None => w
    end).

(** The body of the loop over [[data-i18n]]. *)
Definition translate_text (tr : jvalue) (element : Localized)
  : option Localized :=
  match data_i18n element with
  | None => Some element
  | Some key =>
      match t h tr key JUndefined with
      | None => None
      | Some translation =>
          if eqb (tagName element) (lit "INPUT")
             || eqb (tagName element) (lit "TEXTAREA")
          then option_map (fun s => set_el_placeholder s element)
                          (dom_string h translation)
          else option_map (fun s => set_el_content (TextContent s) element)
                          (dom_text_content h translation)
      end
  end.

(** The body of the loop over [[data-i18n-html]]: the element holds the
    markup as the string given to [innerHTML]. *)
Definition translate_html (tr : jvalue) (element : Localized)
  : option Localized :=
  match data_i18n_html element with
  | None => Some element
  | Some key =>
      match t h tr key JUndefined with
      | None => None
      | Some translation =>
          option_map (fun s => set_el_content (InnerHTML s) element)
                     (dom_inner_html h translation)
      end
  end.

(** The body of the loop over [[data-i18n-placeholder]].  [placeholder]
    is an attribute of [input] and [textarea] elements, where the
    assignment converts the value to a string; on another element it makes
    a property of the object, which takes any value as it is and which
    nothing reads. *)
Definition translate_placeholder (tr : jvalue) (element : Localized)
  : option Localized :=
  match data_i18n_placeholder element with
  | None => Some element
  | Some key =>
      match t h tr key JUndefined with
      | None => None
      | Some translation =>
          if eqb (tagName element) (lit "INPUT")
             || eqb (tagName element) (lit "TEXTAREA")
          then option_map (fun s => set_el_placeholder s element)
                          (dom_string h translation)
          else Some element
      end
  end.

Definition each_localized (f : jvalue -> Localized -> option Localized)
  : M unit :=
  this <- this_i18n ;;
  fun w =>
    let (elements, finished) := for_each (f (translations this)) (localized w) in
    (set_localized elements w, if finished then Some tt else None).

Definition applyTranslations : M unit :=
  translation <- call_t (lit "app.title") ;;
  text <- lift (dom_string h translation) ;;
  modify (set_title text) ;;
  each_localized translate_text ;;
  each_localized translate_html ;;
  each_localized translate_placeholder ;;
  updateLanguageSelector.

Definition set_translations (data : jvalue) : M unit :=
  this <- this_i18n ;;
  modify (set_window_i18n
            (Some {| currentLanguage := currentLanguage this;
                     translations := data |})).

Definition set_currentLanguage (langCode : jstring) : M unit :=
  this <- this_i18n ;;
  modify (set_window_i18n
            (Some {| currentLanguage := langCode;
                     translations := translations this |})).

Definition loadFallbackTranslations (reply : Reply) : M unit :=
  try_catch
    (emit (Fetch (lit "/static/languages/en.json")) ;;
     response <- await_reply reply ;;
     data <- lift (snd response) ;;
     set_translations data ;;
     applyTranslations)
    (ret tt).

(** [reply] answers the fetch of the language's document, [fallback] the
    fetch of the English one, when it comes to that. *)
Definition loadTranslations (reply fallback : Reply) : M unit :=
  try_catch
    (this <- this_i18n ;;
     emit (Fetch (language_url (currentLanguage this))) ;;
     response <- await_reply reply ;;
     if fst response then
       data <- lift (snd response) ;;
       set_translations data ;;
       applyTranslations
     else loadFallbackTranslations fallback)
    (loadFallbackTranslations fallback).

(** *** [SakhaAI] *)

Definition updatePlaceholders : M unit :=
  i18n <- gets window_i18n ;;
  match i18n with
  | Some _ =>
      mode <- gets currentMode ;;
      translation <- call_t (lit "app.placeholders." ++ mode) ;;
      text <- lift (dom_string h translation) ;;
      modify (set_inputPlaceholder text)
  | None => ret tt
  end.

(** [document.dispatchEvent] of the [languageChanged] event: the listener
    that [setupLanguageSupport] registered runs, and what it throws does
    not reach the dispatcher. *)
Definition dispatch_languageChanged (langCode : jstring) : M unit :=
  emit (Dispatch (lit "languageChanged") langCode) ;;
  try_catch updatePlaceholders (ret tt).

(** [I18n.setLanguage], with the replies to the fetches of its reload. *)
Definition setLanguage (langCode : jstring) (reply fallback : Reply) : M unit :=
  this <- this_i18n ;;
  if eqb (currentLanguage this) langCode then ret tt
  else
    set_currentLanguage langCode ;;
    emit (SetItem (lit "sakha-language") langCode) ;;
    modify (fun w =>
      set_localStorage
        (setItem (lit "sakha-language") langCode (localStorage w)) w) ;;
    loadTranslations reply fallback ;;
    dispatch_languageChanged langCode.

Definition changeLanguage (langCode : jstring) (reply fallback : Reply)
  : M unit :=
  i18n <- gets window_i18n ;;
  match i18n with
  | Some _ => setLanguage langCode reply fallback
  | None => ret tt
  end.

(** Whether a CSS parser reads the text [[data-mode="m"]] as the selector
    of the attribute value [m] itself: [m] holds no quote, backslash, line
    break, NUL or surrogate. *)
Definition css_plain (m : jstring) : bool :=
  forallb (fun c => negb (N.eqb c 0 || N.eqb c 10 || N.eqb c 12 || N.eqb c 13
                          || N.eqb c 34 || N.eqb c 92
                          || (N.leb 55296 c && N.leb c 57343))%N) m.

Fixpoint first_with_mode (m : jstring) (i : nat) (cs : list ModeControl)
  : QueryResult :=
  match cs with
  | [] => QNull
  | c :: rest =>
      match data_mode c with
      | Some m' => if eqb m m' then QControl i else first_with_mode m (S i) rest
      | None => first_with_mode m (S i) rest
      end
  end.

(** [document.querySelector(`[data-mode="${mode}"]`)] *)
Definition query_mode (mode : jstring) (cs : list ModeControl) : QueryResult :=
  if css_plain mode then first_with_mode mode 0 cs
  else css_query h (lit "[data-mode=" ++ [DQUOTE] ++ mode ++ [DQUOTE] ++ lit "]")
                 cs.

Fixpoint update_nth {A} (i : nat) (f : A -> A) (l : list A) : list A :=
  match l, i with
  | [], _ => []
  | x :: rest, O => f x :: rest
  | x :: rest, S j => x :: update_nth j f rest
  end.

Definition setMode (mode : jstring) : M unit :=
  modify (set_currentMode mode) ;;
  modify (fun w => set_modeControls (deactivated (modeControls w)) w) ;;
  controls <- gets modeControls ;;
  match query_mode mode controls with
  | QSyntaxError | QNull => throw
  | QControl i =>
      modify (fun w =>
        set_modeControls (update_nth i (set_active true) (modeControls w)) w) ;;
      updatePlaceholders
  | QOther => updatePlaceholders
  end.

Definition showLoading : M unit := modify (set_loadingShown true).
Definition hideLoading : M unit := modify (set_loadingShown false).
Definition showCrisisModal : M unit := modify (set_crisisShown true).

Definition scrollToBottom : M unit :=
  modify (fun w => set_scrollTimers (S (scrollTimers w)) w).

(** [addMessage(content, sender, isError)]: [content.replace] of a value
    that is no string is a TypeError, only strings have the method.  The
    entry holds the markup of an assistant message as the string given to
    [innerHTML]; the elements the browser makes of it are those of the
    entry and, as said of the page, are not added to the lists of the
    document. *)
Definition addMessage (content : jvalue) (sender : jstring) (isError : bool)
  : M unit :=
  shown <- lift (if eqb sender (lit "assistant")
                 then match content with
                      | JStr s => Some (InnerHTML (formatMessage s))
                      | _ => None
                      end
                 else option_map TextContent (dom_text_content h content)) ;;
  modify (fun w =>
    set_messages
      (messages w
       ++ [{| className := lit "message " ++ sender;
              avatar := if eqb sender (lit "user")
                        then lit "<i class=" ++ [DQUOTE] ++ lit "fas fa-user"
                             ++ [DQUOTE] ++ lit "></i>"
                        else lit "<i class=" ++ [DQUOTE] ++ lit "fas fa-heart"
                             ++ [DQUOTE] ++ lit "></i>";
              errorStyle := isError;
              body := shown |}]) w) ;;
  scrollToBottom.

Definition status_text (key fallback : jstring) : M unit :=
  i18n <- gets window_i18n ;;
  shown <- match i18n with
           | Some _ => call_t key
           | None => ret (JStr fallback)
           end ;;
  text <- lift (dom_text_content h shown) ;;
  modify (set_statusText text).

(** [updateConnectionStatus(connected, aiEnabled = false)] *)
Definition updateConnectionStatus (connected : bool) (aiEnabled : jvalue)
  : M unit :=
  let aiEnabled := match aiEnabled with JUndefined => JBool false | v => v end in
  modify (set_isConnected connected) ;;
  (if connected then
     modify (set_statusDisconnected false) ;;
     if truthy aiEnabled
     then status_text (lit "app.status.aiReady") (lit "AI Ready")
     else status_text (lit "app.status.connectedLimited")
                      (lit "Connected (Limited AI)")
   else
     modify (set_statusDisconnected true) ;;
     status_text (lit "app.status.disconnected") (lit "Disconnected")) ;;
  modify (fun w =>
    set_sendDisabled
      (negb connected || Nat.eqb (length (trim (inputValue w))) 0) w).

Definition checkHealth (reply : Reply) : M unit :=
  try_catch
    (emit (Fetch (lit "/api/health")) ;;
     response <- await_reply reply ;;
     data <- lift (snd response) ;;
     status <- lift (member h data (lit "status")) ;;
     match status with
     | JStr s =>
         if eqb s (lit "healthy") then
           ai_enabled <- lift (member h data (lit "ai_enabled")) ;;
           updateConnectionStatus true ai_enabled
         else updateConnectionStatus false JUndefined
     | _ => updateConnectionStatus false JUndefined
     end)
    (updateConnectionStatus false JUndefined).

Definition default_error : jstring :=
  lit "I apologize, but I'm having trouble connecting right now. Please try again in a moment. If the problem persists, please refresh the page.".

(** [sendMessage] up to its [try]: [Some] of the message when the guard
    lets it through. *)
Definition sendMessage_begin : M (option jstring) :=
  value <- gets inputValue ;;
  connected <- gets isConnected ;;
  let message := trim value in
  if negb (truthy (JStr message)) || negb connected then ret None
  else
    welcome <- gets welcomeDisplay ;;
    (if negb (eqb welcome (lit "none")) then
       modify (set_welcomeDisplay (lit "none")) ;;
       modify (set_chatDisplay (lit "flex"))
     else ret tt) ;;
    addMessage (JStr message) (lit "user") false ;;
    modify (set_inputValue []) ;;
    modify (set_inputHeight (lit "auto")) ;;
    modify (set_sendDisabled true) ;;
    showLoading ;;
    ret (Some message).

(** The [try] and the [catch] of [sendMessage], with the reply to the chat
    request. *)
Definition sendMessage_request (message : jstring) (reply : Reply) : M unit :=
  try_catch
    (i18n <- gets window_i18n ;;
     mode <- gets currentMode ;;
     emit (Post (lit "/api/chat")
             [ (lit "message", message);
               (lit "mode", mode);
               (lit "language", match i18n with
                                | Some this => currentLanguage this
                                | None => lit "en"
                                end) ]) ;;
     response <- await_reply reply ;;
     if negb (fst response) then throw
     else
       data <- lift (snd response) ;;
       hideLoading ;;
       answer <- lift (member h data (lit "response")) ;;
       addMessage answer (lit "assistant") false ;;
       crisis_detected <- lift (member h data (lit "crisis_detected")) ;;
       if truthy crisis_detected then showCrisisModal else ret tt)
    (hideLoading ;;
     i18n <- gets window_i18n ;;
     errorMessage <- match i18n with
                     | Some _ => call_t (lit "app.error")
                     | None => ret (JStr default_error)
                     end ;;
     addMessage errorMessage (lit "assistant") true).

Definition sendMessage (reply : Reply) : M unit :=
  guard <- sendMessage_begin ;;
  match guard with
  | Some message => sendMessage_request message reply
  | None => ret tt
  end.

(** The two [input] listeners of the message input, after the user has
    made its value [value] and the layout has given it [scrollHeight]. *)
Definition on_input (value : jstring) (scrollHeight : Z) : M unit :=
  modify (set_inputValue value) ;;
  connected <- gets isConnected ;;
  let hasText := negb (Nat.eqb (length (trim value)) 0) in
  modify (set_sendDisabled (negb hasText || negb connected)) ;;
  modify (set_inputHeight (lit "auto")) ;;
  modify (set_inputHeight
            (number_to_string (Z.min scrollHeight 120) ++ lit "px")).

(** The click on the close button of the crisis modal, or on its backdrop. *)
Definition on_close_crisis : M unit := modify (set_crisisShown false).

(** What can run on the controller: its methods as the listeners and the
    constructor call them. *)
Inductive Call : Type :=
| CheckHealth (reply : Reply)
| SendMessage (reply : Reply)
| SetMode (mode : jstring)
| ChangeLanguage (langCode : jstring) (reply fallback : Reply)
| UpdatePlaceholders
| Input (value : jstring) (scrollHeight : Z)
| CloseCrisisModal
| ShowCrisisModal.

Definition run (c : Call) : M unit :=
  match c with
  | CheckHealth reply => checkHealth reply
  | SendMessage reply => sendMessage reply
  | SetMode mode => setMode mode
  | ChangeLanguage langCode reply fallback =>
      changeLanguage langCode reply fallback
  | UpdatePlaceholders => updatePlaceholders
  | Input value scrollHeight => on_input value scrollHeight
  | CloseCrisisModal => on_close_crisis
  | ShowCrisisModal => showCrisisModal
  end.

End Program.

(** ** The rest of [I18n] *)

Definition DASH : char := 45%N.

(** [['en', 'hi', 'fr', 'es']], the languages [detectLanguage] knows. *)
Definition supportedLangs : list jstring :=
  [lit "en"; lit "hi"; lit "fr"; lit "es"].

(** The second half of [detectLanguage]: the language of the browser, cut
    at its first dash.  [None] is the TypeError of [split] on a value that
    is no string, only strings have the method. *)
Definition browser_language (language userLanguage : jvalue) : option jstring :=
  let browserLang := if truthy language then language else userLanguage in
  match browserLang with
  | JStr s =>
      let langCode := hd [] (split DASH s) in
      Some (if existsb (eqb langCode) supportedLangs then langCode
            else lit "en")
  | _ => None
  end.

(** [detectLanguage()], over the storage area and the values of
    [navigator.language] and [navigator.userLanguage]. *)
Definition detectLanguage
           (area : list (jstring * jstring)) (language userLanguage : jvalue)
  : option jstring :=
  match getItem (lit "sakha-language") area with
  | Some savedLang =>
      if truthy (JStr savedLang) then Some savedLang
      else browser_language language userLanguage
  | None => browser_language language userLanguage
  end.

(** [window.i18n = new I18n()]: the constructor starts the first load,
    whose replies come in once the instance is in place. *)
Definition new_I18n (h : Host) (language userLanguage : jvalue)
           (reply fallback : Reply) : M unit :=
  area <- gets localStorage ;;
  detected <- lift (detectLanguage area language userLanguage) ;;
  modify (set_window_i18n
            (Some {| currentLanguage := detected; translations := JObj [] |})) ;;
  loadTranslations h reply fallback.

(** An entry of the language picker. *)
Record Language : Type := {
  code : jstring;
  name : jstring;
  flag : jstring
}.

(** The two regional-indicator letters of a flag, as surrogate pairs. *)
Definition flag_US : jstring := [55356; 56826; 55356; 56824]%N.
Definition flag_IN : jstring := [55356; 56814; 55356; 56819]%N.
Definition flag_FR : jstring := [55356; 56811; 55356; 56823]%N.
Definition flag_ES : jstring := [55356; 56810; 55356; 56824]%N.

Definition getSupportedLanguages : list Language :=
  [ {| code := lit "en"; name := lit "English"; flag := flag_US |};
    {| code := lit "hi";
       name := [2361; 2367; 2344; 2381; 2342; 2368]%N; flag := flag_IN |};
    {| code := lit "ta";
       name := [2980; 2990; 3007; 2996; 3021]%N; flag := flag_IN |};
    {| code := lit "te";
       name := [3108; 3142; 3122; 3137; 3095; 3137]%N; flag := flag_IN |};
    {| code := lit "pa";
       name := [2602; 2672; 2588; 2622; 2604; 2624]%N; flag := flag_IN |};
    {| code := lit "fr";
       name := lit "Fran" ++ [231%N] ++ lit "ais"; flag := flag_FR |};
    {| code := lit "es";
       name := lit "Espa" ++ [241%N] ++ lit "ol"; flag := flag_ES |} ].

(** ** Notions of the further statements *)

(** [m] leaves a page with [P] a page with [P], also when it throws. *)
Definition maintains {A} (P : World -> Prop) (m : M A) : Prop :=
  forall w, P w -> P (fst (m w)).

(** From a page with [P], where [m] returns normally it leaves a page
    with [Q]. *)
Definition ensures {A} (P : World -> Prop) (m : M A) (Q : World -> Prop)
  : Prop :=
  forall w, P w -> snd (m w) <> None -> Q (fst (m w)).

(** The input holds nothing but white space. *)
Definition blank (w : World) : bool :=
  Nat.eqb (length (trim (inputValue w))) 0.

(** The send button is disabled exactly when the page is not connected or
    the input is blank. *)
Definition send_settled (w : World) : Prop :=
  sendDisabled w = negb (isConnected w) || blank w.

(** An enabled send button means a connected page and an input with text. *)
Definition send_ready (w : World) : Prop :=
  sendDisabled w = false -> isConnected w = true /\ trim (inputValue w) <> [].

(** The reply of the health endpoint has a body whose [status] is
    ["healthy"]; the HTTP status plays no part. *)
Definition reports_healthy (h : Host) (reply : Reply) : Prop :=
  exists ok data,
    reply = Responded ok (Some data)
    /\ member h data (lit "status") = Some (JStr (lit "healthy")).

(** The key of the status text of a connected page. *)
Definition status_key (ai_enabled : jvalue) : jstring :=
  if truthy ai_enabled then lit "app.status.aiReady"
  else lit "app.status.connectedLimited".

(** The payload of the chat request of a page. *)
Definition chat_request (w : World) : Effect :=
  Post (lit "/api/chat")
    [ (lit "message", trim (inputValue w));
      (lit "mode", currentMode w);
      (lit "language", match window_i18n w with
                       | Some this => currentLanguage this
                       | None => lit "en"
                       end) ].

(** A reply to the chat request with a success status that the controller
    cannot use: its body is no JSON, or the [response] of its body is no
    string. *)
Definition unusable (h : Host) (reply : Reply) : Prop :=
  reply = Responded true None
  \/ exists data,
       reply = Responded true (Some data)
       /\ (member h data (lit "response") = None
           \/ exists v, member h data (lit "response") = Some v
                        /\ is_string v = false).

(** The [data-mode] of the controls that are marked active. *)
Definition active_modes (w : World) : list (option jstring) :=
  map data_mode (filter active (modeControls w)).

(** A code unit that one of the rules of [formatMessage] starts from or
    needs: the star, the line feed, the slash of a URL, the dash, the
    hash, the bullet, the angle of a tag. *)
Definition is_markup (c : char) : bool :=
  (N.eqb c 42 || N.eqb c 10 || N.eqb c 47 || N.eqb c 45 || N.eqb c 35
   || N.eqb c 8226 || N.eqb c 60)%N.

(** The document of the language could not be had: the transport failed,
    the status was no success, or the body was no JSON. *)
Definition no_document (reply : Reply) : Prop :=
  reply = NetworkError
  \/ (exists json, reply = Responded false json)
  \/ reply = Responded true None.

(** The English document could not be had either; its status is not
    looked at. *)
Definition no_fallback (fallback : Reply) : Prop :=
  fallback = NetworkError \/ exists ok, fallback = Responded ok None.

(** The instance is in the language of [this], and its table is the table
    of [this], the document of [reply] or the document of [fallback]. *)
Definition reloaded_from (this : I18n) (reply fallback : Reply) (w : World)
  : Prop :=
  exists this',
    window_i18n w = Some this'
    /\ currentLanguage this' = currentLanguage this
    /\ (translations this' = translations this
        \/ reply = Responded true (Some (translations this'))
        \/ exists ok, fallback = Responded ok (Some (translations this'))).

(** The instance and the language picker of a page. *)
Definition picker_state (w : World) : option I18n * option Select :=
  (window_i18n w, languageSelector w).

(** The [catch] block of [sendMessage]. *)
Definition sendMessage_catch (h : Host) : M unit :=
  hideLoading ;;
  i18n <- gets window_i18n ;;
  errorMessage <- match i18n with
                  | Some _ => call_t h (lit "app.error")
                  | None => ret (JStr default_error)
                  end ;;
  addMessage h errorMessage (lit "assistant") true.

(** What a transcript entry is apart from the body of its content: the
    class of the entry, the markup of its avatar, and whether its content
    has the error style.  The body is left out: a reply's markup may hold
    elements with a localization marker, which a later
    [applyTranslations] rewrites. *)
Definition entry_frame (m : Message) : jstring * jstring * bool :=
  (className m, avatar m, errorStyle m).

(** The transcript of the page starts with entries of the frames
    [shown]. *)
Definition extends (shown : list (jstring * jstring * bool)) (w : World)
  : Prop :=
  exists added, map entry_frame (messages w) = shown ++ added.

(** The chat request did not give an answer that can be shown: it failed,
    or its reply is of no use. *)
Definition unanswered (h : Host) (reply : Reply) : Prop :=
  reply = NetworkError
  \/ (exists json, reply = Responded false json)
  \/ unusable h reply.

(** The page has no generic error string: [window.i18n] is there, and [t]
    throws on [app.error] or makes of it a value that is no string (the
    table has a mapping, a number, ... at that path). *)
Definition no_error_string (h : Host) (w : World) : Prop :=
  exists this,
    window_i18n w = Some this
    /\ match t h (translations this) (lit "app.error") JUndefined with
       | Some v => is_string v = false
       | None => True
       end.


(** The page has no status text for a connected page: [window.i18n] is
    there, and [t] throws on the status key or makes of it a value that
    [textContent] cannot take, its conversion to a string throwing. *)
Definition no_status_text (h : Host) (w : World) (ai_enabled : jvalue) : Prop :=
  exists this,
    window_i18n w = Some this
    /\ match t h (translations this) (status_key ai_enabled) JUndefined with
       | Some v => dom_text_content h v = None
       | None => True
       end.

(** A text without any of the code units the rules of [formatMessage]
    start from. *)
Definition plain_text (s : jstring) : Prop :=
  forall c, In c s -> is_markup c = false.

(** The text of the placeholder of a name. *)
Definition braces (name : jstring) : jstring := lit "{{" ++ name ++ lit "}}".

(** A code unit that is no line feed. *)
Definition not_LF (c : char) : Prop := c <> LF.

(** A body of the chat endpoint with an answer and no crisis. *)
Definition calm_answer : jvalue :=
  JObj [(lit "response", JStr (lit "**Breathe** with me."));
        (lit "crisis_detected", JBool false)].

(** A body of the health endpoint that reports a healthy service. *)
Definition healthy_limited : jvalue :=
  JObj [(lit "status", JStr (lit "healthy")); (lit "ai_enabled", JBool true)].

(** A table whose leaf greets by name. *)
Definition greeting_table : jvalue :=
  JObj [(lit "greeting", JStr (lit "Namaste, " ++ braces (lit "name") ++ lit "!"))].

(** ** Notions of the statements *)

(** [m] never changes what [proj] reads off the page. *)
Definition keeps {A X} (proj : World -> X) (m : M A) : Prop :=
  forall w, proj (fst (m w)) = proj w.

(** The language [window.i18n] is set to. *)
Definition language (w : World) : option jstring :=
  option_map currentLanguage (window_i18n w).

(** What [updateConnectionStatus] sets of the page: the flag, the class of
    the status dot, the status text (whose wording tells whether the
    service reports its AI as enabled). *)
Definition connectivity (w : World) : bool * bool * jstring :=
  (isConnected w, statusDisconnected w, statusText w).

(** The connected flag and the class of the status dot. *)
Definition connection (w : World) : bool * bool :=
  (isConnected w, statusDisconnected w).

(** What a reload leaves of the page besides the translations and the
    elements they are applied to. *)
Definition reload_frame (w w' : World) : Prop :=
  localStorage w' = localStorage w /\ language w' = language w.

(** The occurrences of [needle] in [s], overlapping ones included. *)
Fixpoint occurrences (needle s : jstring) : nat :=
  match s with
  | [] => 0
  | _ :: rest =>
      (if starts_with needle s then 1 else 0) + occurrences needle rest
  end.

(** The members of a document of translations: the members of a mapping,
    the elements of an array. *)
Definition document_member (v : jvalue) (k : jstring) : option jvalue :=
  match v with
  | JObj props => assoc k props
  | JArr elems =>
      match array_index k with
      | Some i => nth_N elems i
      | None => None
      end
  | _ => None
  end.

(** The path of a key through the table as the specification reads it:
    segment after segment, each one a member of the mapping reached. *)
Fixpoint resolve (table : jvalue) (segments : list jstring) : option jvalue :=
  match segments with
  | [] => Some table
  | k :: rest =>
      match document_member table k with
      | Some v => resolve v rest
      | None => None
      end
  end.

(** A name the host adds to no value: it is inherited from no prototype,
    and it is not the [length] of an array. *)
Definition host_free (h : Host) (k : jstring) : Prop :=
  k <> lit "length" /\ forall v, inherited h v k = None.

(** The chat request failed: the transport did, or the status is no success. *)
Definition failed (reply : Reply) : Prop :=
  reply = NetworkError \/ exists json, reply = Responded false json.

(** [text] is the generic error string of the page: what [t] makes of
    [app.error], or the English sentence when there is no [window.i18n]. *)
Definition generic_error (h : Host) (w : World) (text : jstring) : Prop :=
  match window_i18n w with
  | Some this => t h (translations this) (lit "app.error") JUndefined
                 = Some (JStr text)
  | None => text = default_error
  end.

(** The selector of the mode finds no element: [querySelector] returns
    [null], or rejects the selector. *)
Definition unmatched (h : Host) (mode : jstring) (w : World) : Prop :=
  match query_mode h mode (deactivated (modeControls w)) with
  | QNull | QSyntaxError => True
  | QControl _ | QOther => False
  end.

(** The transcript entries of [addMessage]. *)
Definition user_entry (message : jstring) : Message :=
  {| className := lit "message user";
     avatar := lit "<i class=" ++ [DQUOTE] ++ lit "fas fa-user" ++ [DQUOTE]
               ++ lit "></i>";
     errorStyle := false;
     body := TextContent message |}.

Definition assistant_entry (content : jstring) (isError : bool) : Message :=
  {| className := lit "message assistant";
     avatar := lit "<i class=" ++ [DQUOTE] ++ lit "fas fa-heart" ++ [DQUOTE]
               ++ lit "></i>";
     errorStyle := isError;
     body := InnerHTML (formatMessage content) |}.

(** ** Tables and a page to run the methods on *)

(** [{app: {title: "Sakha"}}] *)
Definition nested_table : jvalue :=
  JObj [(lit "app", JObj [(lit "title", JStr (lit "Sakha"))])].

(** A leaf with two placeholders. *)
Definition inbox_table : jvalue :=
  JObj [(lit "inbox", JStr (lit "{{count}} new, {{name}}"))].

(** A translation document with the keys the controller asks for. *)
Definition english : jvalue :=
  JObj [(lit "app",
         JObj [(lit "title", JStr (lit "Sakha.ai"));
               (lit "error", JStr (lit "Please try again."));
               (lit "placeholders",
                JObj [(lit "normal", JStr (lit "Share what is on your mind"));
                      (lit "gita", JStr (lit "Ask the Gita"))]);
               (lit "status",
                JObj [(lit "aiReady", JStr (lit "AI Ready"));
                      (lit "disconnected", JStr (lit "Disconnected"))])])].

(** A document for another language, with the title only. *)
Definition hindi : jvalue :=
  JObj [(lit "app", JObj [(lit "title", JStr (lit "Sakha"))])].

(** The page in English, connected, with two mode buttons, the first one
    active, and a message typed into the input. *)
Definition home : World :=
  {| window_i18n :=
       Some {| currentLanguage := lit "en"; translations := english |};
     localStorage := [];
     effects := [];
     title := lit "Sakha.ai";
     localized :=
       [{| tagName := lit "H1"; data_i18n := Some (lit "app.title");
           data_i18n_html := None; data_i18n_placeholder := None;
           el_placeholder := []; el_content := TextContent (lit "Sakha.ai") |}];
     languageSelector :=
       Some {| options := [lit "en"; lit "hi"]; selected := lit "en" |};
     modeControls :=
       [{| mode_btn := true; data_mode := Some (lit "normal"); active := true |};
        {| mode_btn := true; data_mode := Some (lit "gita"); active := false |}];
     isConnected := true;
     currentMode := lit "normal";
     inputValue := lit " I feel low ";
     inputHeight := lit "auto";
     inputPlaceholder := lit "Share what is on your mind";
     sendDisabled := false;
     welcomeDisplay := [];
     chatDisplay := lit "none";
     loadingShown := false;
     crisisShown := false;
     statusDisconnected := false;
     statusText := lit "AI Ready";
     messages := [];
     scrollTimers := 0 |}.

(** A document in which [app.error] is a group of messages, not a
    message. *)
Definition grouped_errors : jvalue :=
  JObj [(lit "app",
         JObj [(lit "title", JStr (lit "Sakha.ai"));
               (lit "error",
                JObj [(lit "network", JStr (lit "No connection."));
                      (lit "server", JStr (lit "Please try again."))])])].

(** The page [home] with that document loaded. *)
Definition grouped_page : World :=
  set_window_i18n
    (Some {| currentLanguage := lit "en"; translations := grouped_errors |})
    home.

(** A document in which the status text [app.status.aiReady] is an object
    with a [toString] entry that is no function, so that its conversion to
    a string throws. *)
Definition unreadable_status : jvalue :=
  JObj [(lit "app",
         JObj [(lit "title", JStr (lit "Sakha.ai"));
               (lit "status",
                JObj [(lit "aiReady", JObj [(lit "toString", JStr (lit "x"))]);
                      (lit "disconnected", JStr (lit "Disconnected"))])])].

(** The page [home] with that document loaded. *)
Definition unreadable_page : World :=
  set_window_i18n
    (Some {| currentLanguage := lit "en"; translations := unreadable_status |})
    home.

(** The same page with nothing but spaces in the input. *)
Definition blank_page : World := set_inputValue (lit "   ") home.

(** A reply of the health endpoint whose status is not [healthy]. *)
Definition unhealthy : Reply :=
  Responded true (Some (JObj [(lit "status", JStr (lit "starting"))])).

(** ** Strings: basic facts *)

Lemma eqb_refl (s : jstring) : eqb s s = true.
Proof.
  induction s as [|c s IH]; simpl; [reflexivity|].
  now rewrite N.eqb_refl, IH.
Qed.

Lemma eqb_eq (a b : jstring) : eqb a b = true <-> a = b.
Proof.
  split; [|intros ->; apply eqb_refl].
  revert b; induction a as [|x a IH]; intros [|y b]; simpl; try easy.
  intros H; apply andb_true_iff in H as [Hx Hab].
  apply N.eqb_eq in Hx; subst; f_equal; auto.
Qed.

Lemma eqb_neq (a b : jstring) : eqb a b = false <-> a <> b.
Proof.
  rewrite <- eqb_eq. destruct (eqb a b); split; congruence.
Qed.

Lemma starts_with_length (p s : jstring) :
  starts_with p s = true -> length p <= length s.
Proof.
  revert s; induction p as [|x p IH]; intros [|y s]; simpl; try lia; try easy.
  intros H; apply andb_true_iff in H as [_ H]. apply IH in H; lia.
Qed.

Lemma take_while_length (f : char -> bool) (s : jstring) :
  length (take_while f s) <= length s.
Proof.
  induction s as [|c s IH]; simpl; [lia|]. destruct (f c); simpl; lia.
Qed.

Lemma last_index_of_bound (needle s : jstring) (p : nat) :
  last_index_of needle s = Some p -> p + length needle <= length s.
Proof.
  revert p; induction s as [|c s IH]; intros p; simpl.
  - destruct needle; simpl; [intros [= <-]; simpl; lia | easy].
  - destruct (last_index_of needle s) as [q|].
    + intros [= <-]. specialize (IH q eq_refl); lia.
    + destruct (starts_with needle (c :: s)) eqn:E; [|easy].
      intros [= <-]. apply starts_with_length in E; simpl in *; lia.
Qed.

Example split_key :
  split DOT (lit "app.status.aiReady")
  = [lit "app"; lit "status"; lit "aiReady"].
Proof. reflexivity. Qed.

Example split_empty_segments : split DOT (lit "a..b.") = [lit "a"; []; lit "b"; []].
Proof. reflexivity. Qed.

Example trim_both_ends : trim (9%N :: lit " I feel low " ++ [LF]) = lit "I feel low".
Proof. reflexivity. Qed.

(** *** The rounds of [li_more] are enough *)

Lemma li_item_length (s : jstring) (l : nat) :
  li_item s = Some l -> 9 <= l <= length s.
Proof.
  unfold li_item.
  destruct (starts_with (lit "<li>") s) eqn:E; [|easy].
  apply starts_with_length in E.
  destruct (last_index_of _ _) as [p|] eqn:L; [|easy].
  intros [= <-]. apply last_index_of_bound in L.
  pose proof (take_while_length (fun c => negb (is_line_terminator c)) (skipn 4 s)) as T.
  rewrite length_skipn in T.
  change (length (lit "</li>")) with 5 in L.
  change (length (lit "<li>")) with 4 in E. lia.
Qed.

Lemma li_more_rounds (r1 r2 : nat) (s : jstring) :
  length s <= r1 -> length s <= r2 -> li_more r1 s = li_more r2 s.
Proof.
  revert r2 s; induction r1 as [|r1 IH]; intros r2 s H1 H2.
  - destruct s; [|simpl in H1; lia].
    destruct r2; reflexivity.
  - destruct r2 as [|r2].
    + destruct s; [reflexivity | simpl in H2; lia].
    + simpl. destruct (li_item _) as [l|] eqn:E; [|reflexivity].
      apply li_item_length in E. rewrite length_skipn in E.
      f_equal. apply IH; rewrite length_skipn; lia.
Qed.

(** ** [formatMessage] on the inputs of the specification *)

(** C4: [formatMessage("**bold** and *italic*")] wraps "bold" in [strong]
    and "italic" in [em] and nothing else; with the two rules in the other
    order the italic rule would have eaten the bold markers. *)
Theorem formatMessage_bold_before_italic :
  formatMessage (lit "**bold** and *italic*")
  = lit "<strong>bold</strong> and <em>italic</em>"
  /\ replace_all bold_rule
       (replace_all italic_rule (lit "**bold** and *italic*"))
     = lit "<em></em>bold<em></em> and <em>italic</em>".
Proof. split; vm_compute; reflexivity. Qed.

(** C3, as the code has it: [formatMessage("- a\n- b")] is one list of one
    item that holds both lines.  The line break has become [<br>] before
    the rule for [- ] looks for the start of a line, so the second dash is
    no longer at one. *)
Theorem formatMessage_two_bullets_one_item :
  formatMessage (lit "- a" ++ [LF] ++ lit "- b")
  = lit "<ul><li>a<br>- b</li></ul>"
  /\ occurrences (lit "<li>") (formatMessage (lit "- a" ++ [LF] ++ lit "- b")) = 1.
Proof. split; vm_compute; reflexivity. Qed.

(** ** [t]: keys that do not lead to a string *)

Lemma walk_resolve (h : Host) (segments : list jstring) :
  (forall k, In k segments -> host_free h k) ->
  forall table, walk h table segments = resolve table segments.
Proof.
  induction segments as [|k rest IH]; intros Hfree table; [reflexivity|].
  assert (Hk : host_free h k) by (apply Hfree; now left).
  assert (IH' : forall v, walk h v rest = resolve v rest)
    by (apply IH; intros; apply Hfree; now right).
  destruct Hk as [Hlen Hinh]. apply eqb_neq in Hlen.
  simpl. unfold has_property, get_property. rewrite Hinh.
  destruct table as [| |b|n|s|elems|props|[|] name]; simpl;
    rewrite ?andb_false_r; try reflexivity.
  - simpl in Hlen. rewrite Hlen. destruct (array_index k) as [i|]; [|reflexivity].
    destruct (nth_N elems i); [apply IH' | reflexivity].
  - destruct (assoc k props); [apply IH' | reflexivity].
Qed.

(** C1, amended: for a key whose segments are no names the host adds, if a
    segment is missing from the table [t] returns the key itself, and if
    the path leads to a value that is no string [t] returns that value, not
    the key; it throws in neither case. *)
Theorem t_key_without_string_leaf
  (h : Host) (table : jvalue) (key : jstring) (params : jvalue) :
  (forall k, In k (split DOT key) -> host_free h k) ->
  (resolve table (split DOT key) = None ->
   t h table key params = Some (JStr key))
  /\ (forall v, resolve table (split DOT key) = Some v -> is_string v = false ->
      t h table key params = Some v).
Proof.
  intros Hfree. unfold t. rewrite walk_resolve by exact Hfree. split.
  - intros ->. reflexivity.
  - intros v -> Hv. destruct v; simpl in Hv; try reflexivity. discriminate.
Qed.

Lemma t_key_without_string_leaf_witness :
  t plain_host nested_table (lit "app.name") JUndefined
  = Some (JStr (lit "app.name")).
Proof.
  refine (proj1 (t_key_without_string_leaf plain_host nested_table
                   (lit "app.name") JUndefined _) _).
  - intros k [<-|[<-|[]]]; (split; [discriminate | intros v; reflexivity]).
  - reflexivity.
Defined.

(** C1 as stated fails: the path of [app] leads to a mapping, which is no
    string leaf, and [t] returns the mapping instead of the key. *)
Lemma t_returns_nested_mapping :
  resolve nested_table (split DOT (lit "app"))
  = Some (JObj [(lit "title", JStr (lit "Sakha"))])
  /\ t plain_host nested_table (lit "app") JUndefined
     = Some (JObj [(lit "title", JStr (lit "Sakha"))])
  /\ t plain_host nested_table (lit "app") JUndefined
     <> Some (JStr (lit "app")).
Proof. repeat split; discriminate. Qed.

(** ** [t]: placeholders *)

(** C2, as the code has it: [params] has the entries [count: 0] and
    [name: ""], and both placeholders stay as they are; an entry whose
    value is falsy is taken for a missing one. *)
Theorem t_keeps_placeholder_of_falsy_param :
  t plain_host inbox_table (lit "inbox")
    (JObj [(lit "count", JNum 0); (lit "name", JStr [])])
  = Some (JStr (lit "{{count}} new, {{name}}"))
  /\ t plain_host inbox_table (lit "inbox")
       (JObj [(lit "count", JNum 3); (lit "name", JStr (lit "Asha"))])
     = Some (JStr (lit "3 new, Asha")).
Proof. split; vm_compute; reflexivity. Qed.

(** The walk takes a name that every object inherits for a segment of the
    table, and the length of an array likewise. *)
Example t_inherited_name :
  t plain_host nested_table (lit "toString") JUndefined
  = Some (JHost true (lit "toString")).
Proof. reflexivity. Qed.

Example t_array_length :
  t plain_host (JObj [(lit "tips", JArr [JStr (lit "rest"); JStr (lit "walk")])])
    (lit "tips.length") JUndefined
  = Some (JNum 2)
  /\ t plain_host (JObj [(lit "tips", JArr [JStr (lit "rest"); JStr (lit "walk")])])
       (lit "tips.1") JUndefined
     = Some (JStr (lit "walk")).
Proof. split; reflexivity. Qed.

(** *** What the substitution does keep

    A leaf without an opening brace comes back as it is, whatever [params]
    holds, and an entry with a falsy value is passed over wherever its
    placeholder stands. *)

Lemma placeholder_needs_brace (c : char) (s : jstring) :
  c <> 123%N -> placeholder (c :: s) = None.
Proof.
  intros Hc. unfold placeholder. change (lit "{{") with [123%N; 123%N].
  cbn [starts_with]. destruct (N.eqb_spec 123 c); [congruence | reflexivity].
Qed.

Lemma substitute_plain (h : Host) (params : jvalue) (s : jstring) :
  ~ In 123%N s -> substitute h params 0 s = Some s.
Proof.
  induction s as [|c s IH]; intros Hs; [reflexivity|].
  cbn [substitute]. rewrite placeholder_needs_brace.
  - rewrite IH; [reflexivity|]. intros Hin. apply Hs. now right.
  - intros ->. apply Hs. now left.
Qed.

Lemma param_text_falsy (h : Host) (params v : jvalue) (param matched : jstring) :
  member h params param = Some v ->
  truthy v = false ->
  param_text h params param matched = Some matched.
Proof. intros Hv Hfalsy. unfold param_text. now rewrite Hv, Hfalsy. Qed.

Lemma t_plain_string_leaf
      (h : Host) (table : jvalue) (key : jstring) (params : jvalue)
      (leaf : jstring) :
  (forall k, In k (split DOT key) -> host_free h k) ->
  resolve table (split DOT key) = Some (JStr leaf) ->
  ~ In 123%N leaf ->
  t h table key params = Some (JStr leaf).
Proof.
  intros Hfree Hleaf Hplain. unfold t.
  rewrite walk_resolve by exact Hfree. rewrite Hleaf.
  now rewrite substitute_plain.
Qed.

(** ** What a method leaves alone *)

Section Frames.

Context {X : Type} (proj : World -> X).

Lemma keeps_ret {A} (a : A) : keeps proj (ret a).
Proof. intros w; reflexivity. Qed.

Lemma keeps_throw {A} : keeps proj (@throw A).
Proof. intros w; reflexivity. Qed.

Lemma keeps_lift {A} (o : option A) : keeps proj (lift o).
Proof. intros w; reflexivity. Qed.

Lemma keeps_gets {A} (f : World -> A) : keeps proj (gets f).
Proof. intros w; reflexivity. Qed.

Lemma keeps_this : keeps proj this_i18n.
Proof. intros w; reflexivity. Qed.

Lemma keeps_await (r : Reply) : keeps proj (await_reply r).
Proof. intros w; destruct r; reflexivity. Qed.

Lemma keeps_modify (f : World -> World) :
  (forall w, proj (f w) = proj w) -> keeps proj (modify f).
Proof. intros H w; apply H. Qed.

Lemma keeps_bind {A B} (m : M A) (k : A -> M B) :
  keeps proj m -> (forall a, keeps proj (k a)) -> keeps proj (bind m k).
Proof.
  intros Hm Hk w. unfold bind. specialize (Hm w).
  destruct (m w) as [w' [a|]]; simpl in *; [|assumption].
  now rewrite Hk.
Qed.

Lemma keeps_try_catch {A} (body handler : M A) :
  keeps proj body -> keeps proj handler -> keeps proj (try_catch body handler).
Proof.
  intros Hb Hh w. unfold try_catch. specialize (Hb w).
  destruct (body w) as [w' [a|]]; simpl in *; [assumption|].
  now rewrite Hh.
Qed.

Lemma keeps_each_localized (f : jvalue -> Localized -> option Localized) :
  (forall l w, proj (set_localized l w) = proj w) ->
  keeps proj (each_localized f).
Proof.
  intros H. unfold each_localized. apply keeps_bind; [apply keeps_this|].
  intros this w. destruct (for_each _ _). apply H.
Qed.

End Frames.

Lemma keeps_language_set_translations (data : jvalue) :
  keeps language (set_translations data).
Proof.
  intros w. unfold set_translations, bind, this_i18n, language.
  destruct (window_i18n w) eqn:E; simpl; [reflexivity | now rewrite E].
Qed.

Create HintDb methods.

#[local] Hint Unfold call_t updateLanguageSelector applyTranslations
  loadFallbackTranslations loadTranslations updatePlaceholders
  dispatch_languageChanged setLanguage changeLanguage setMode showLoading
  hideLoading showCrisisModal scrollToBottom addMessage status_text
  updateConnectionStatus sendMessage_begin sendMessage_request sendMessage
  set_currentLanguage on_input on_close_crisis emit : methods.

(** A projection of an updated page, the update possibly under a test. *)
Ltac settle :=
  repeat match goal with
         | |- context [match ?x with _ => _ end] => destruct x
         end;
  reflexivity.

(** One step of a frame proof, by the shape of the method. *)
Ltac frame_step :=
  lazymatch goal with
  | |- keeps _ (ret _) => apply keeps_ret
  | |- keeps _ throw => apply keeps_throw
  | |- keeps _ (lift _) => apply keeps_lift
  | |- keeps _ (gets _) => apply keeps_gets
  | |- keeps _ this_i18n => apply keeps_this
  | |- keeps _ (await_reply _) => apply keeps_await
  | |- keeps language (set_translations _) =>
      apply keeps_language_set_translations
  | |- keeps _ (set_translations _) => unfold set_translations
  | |- keeps _ (bind _ _) => apply keeps_bind; [|intro]
  | |- keeps _ (try_catch _ _) => apply keeps_try_catch
  | |- keeps _ (modify _) => apply keeps_modify; intro; settle
  | |- keeps _ (each_localized _) =>
      apply keeps_each_localized; intros; reflexivity
  | |- keeps _ (match ?x with _ => _ end) => destruct x
  end.

Ltac frame := repeat (autounfold with methods; frame_step).

Lemma keeps_effects_applyTranslations (h : Host) :
  keeps effects (applyTranslations h).
Proof. frame. Qed.

Lemma keeps_storage_applyTranslations (h : Host) :
  keeps localStorage (applyTranslations h).
Proof. frame. Qed.

Lemma keeps_language_applyTranslations (h : Host) :
  keeps language (applyTranslations h).
Proof. frame. Qed.

(** ** Switching the language *)

Lemma getItem_setItem (key item : jstring) (area : list (jstring * jstring)) :
  getItem key (setItem key item area) = Some item.
Proof.
  induction area as [|[k v] area IH]; simpl.
  - now rewrite eqb_refl.
  - destruct (eqb k key) eqn:E; simpl; [now rewrite eqb_refl | now rewrite E].
Qed.

Lemma emit_bind_effects {A} (e : Effect) (k : M A) (w : World) :
  keeps effects k -> effects (fst ((emit e ;; k) w)) = effects w ++ [e].
Proof. intros Hk. unfold bind, emit, modify. now rewrite Hk. Qed.

Lemma loadFallbackTranslations_spec (h : Host) (reply : Reply) (w : World) :
  exists w',
    loadFallbackTranslations h reply w = (w', Some tt)
    /\ effects w' = effects w ++ [Fetch (lit "/static/languages/en.json")]
    /\ reload_frame w w'.
Proof.
  unfold loadFallbackTranslations, try_catch.
  match goal with |- context [match ?b w with _ => _ end] => set (body := b) end.
  assert (E : effects (fst (body w)) = effects w ++ [Fetch (lit "/static/languages/en.json")])
    by (apply emit_bind_effects; frame).
  assert (S : keeps localStorage body) by (subst body; frame).
  assert (L : keeps language body) by (subst body; frame).
  specialize (S w). specialize (L w).
  destruct (body w) as [w' [[]|]]; exists w'; repeat split; assumption.
Qed.

Lemma loadTranslations_spec (h : Host) (reply fallback : Reply) (w : World)
      (this : I18n) :
  window_i18n w = Some this ->
  exists w' again,
    loadTranslations h reply fallback w = (w', Some tt)
    /\ effects w'
       = effects w ++ Fetch (language_url (currentLanguage this)) :: again
    /\ (again = [] \/ again = [Fetch (lit "/static/languages/en.json")])
    /\ reload_frame w w'.
Proof.
  intros Hthis.
  unfold loadTranslations, try_catch. unfold bind at 1, this_i18n. rewrite Hthis.
  match goal with |- context [match ?b w with _ => _ end] => set (body := b) end.
  assert (S : keeps localStorage body) by (subst body; frame).
  assert (L : keeps language body) by (subst body; frame).
  specialize (S w). specialize (L w).
  assert (E : exists again,
             effects (fst (body w))
             = effects w ++ Fetch (language_url (currentLanguage this)) :: again
             /\ (snd (body w) = None -> again = [])
             /\ (again = [] \/ again = [Fetch (lit "/static/languages/en.json")])).
  { subst body. unfold bind at 1, emit, modify.
    destruct reply as [|[|] json]; cbn [await_reply bind throw ret fst snd].
    - exists []. simpl. auto.
    - exists []. split; [|auto].
      match goal with |- effects (fst (?k ?w0)) = _ =>
        assert (K : keeps effects k) by frame; now rewrite K end.
    - match goal with |- context [loadFallbackTranslations h fallback ?w0] =>
        destruct (loadFallbackTranslations_spec h fallback w0)
          as (w1 & E0 & E1 & _) end.
      exists [Fetch (lit "/static/languages/en.json")].
      rewrite E0. cbn [fst snd]. rewrite E1. cbn [effects set_effects].
      rewrite <- app_assoc. split; [reflexivity|]. split; [discriminate|auto]. }
  destruct E as (again & E & Hthrown & Hagain).
  destruct (body w) as [w1 [[]|]]; simpl in *.
  - exists w1, again. repeat split; assumption.
  - rewrite (Hthrown eq_refl) in E.
    destruct (loadFallbackTranslations_spec h fallback w1)
      as (w2 & -> & E2 & S2 & L2).
    exists w2, [Fetch (lit "/static/languages/en.json")].
    split; [reflexivity|]. rewrite E2, E, <- app_assoc.
    repeat split; try (now right); congruence.
Qed.

Lemma keeps_effects_updatePlaceholders (h : Host) :
  keeps effects (updatePlaceholders h).
Proof. frame. Qed.

Lemma keeps_storage_updatePlaceholders (h : Host) :
  keeps localStorage (updatePlaceholders h).
Proof. frame. Qed.

Lemma keeps_language_updatePlaceholders (h : Host) :
  keeps language (updatePlaceholders h).
Proof. frame. Qed.

Lemma dispatch_languageChanged_spec (h : Host) (langCode : jstring) (w : World) :
  exists w',
    dispatch_languageChanged h langCode w = (w', Some tt)
    /\ effects w' = effects w ++ [Dispatch (lit "languageChanged") langCode]
    /\ reload_frame w w'.
Proof.
  unfold dispatch_languageChanged, bind, emit, modify, try_catch.
  match goal with |- context [updatePlaceholders h ?w0] =>
    pose proof (keeps_effects_updatePlaceholders h w0) as E;
    pose proof (keeps_storage_updatePlaceholders h w0) as S;
    pose proof (keeps_language_updatePlaceholders h w0) as L;
    destruct (updatePlaceholders h w0) as [w' [[]|]]
  end; exists w'; repeat split; assumption.
Qed.

(** C6: [setLanguage] of the language the page is in does nothing: the page
    is as it was, so no document was fetched, nothing was written to the
    storage and no event was dispatched. *)
Theorem setLanguage_current_language
  (h : Host) (langCode : jstring) (reply fallback : Reply) (w : World)
  (this : I18n) :
  window_i18n w = Some this ->
  currentLanguage this = langCode ->
  setLanguage h langCode reply fallback w = (w, Some tt).
Proof.
  intros Hthis <-. unfold setLanguage, bind, this_i18n.
  now rewrite Hthis, eqb_refl.
Qed.

Lemma setLanguage_current_language_witness :
  setLanguage plain_host (lit "en") NetworkError NetworkError home
  = (home, Some tt).
Proof.
  apply (setLanguage_current_language plain_host (lit "en") NetworkError
           NetworkError home
           {| currentLanguage := lit "en"; translations := english |});
    reflexivity.
Defined.

(** C7: [setLanguage] of another language returns normally, and what it
    asks of its environment is, in this order: one write of the code to the
    storage, the fetch of the language's document and, where that reload
    fails, of the English one, and then one [languageChanged] event with
    the code, dispatched on the page as the reload has left it. *)
Theorem setLanguage_new_language
  (h : Host) (langCode : jstring) (reply fallback : Reply) (w : World)
  (this : I18n) :
  window_i18n w = Some this ->
  currentLanguage this <> langCode ->
  exists written reloaded w' again,
    setLanguage h langCode reply fallback w = (w', Some tt)
    /\ effects written
       = effects w ++ [SetItem (lit "sakha-language") langCode]
    /\ loadTranslations h reply fallback written = (reloaded, Some tt)
    /\ dispatch_languageChanged h langCode reloaded = (w', Some tt)
    /\ effects w'
       = effects w
         ++ SetItem (lit "sakha-language") langCode
            :: Fetch (language_url langCode)
            :: again ++ [Dispatch (lit "languageChanged") langCode]
    /\ (again = [] \/ again = [Fetch (lit "/static/languages/en.json")])
    /\ getItem (lit "sakha-language") (localStorage w') = Some langCode
    /\ language w' = Some langCode.
Proof.
  intros Hthis Hne. apply eqb_neq in Hne.
  unfold setLanguage. unfold bind at 1, this_i18n. rewrite Hthis, Hne.
  unfold set_currentLanguage.
  unfold bind at 1 2, this_i18n, emit, modify. rewrite Hthis.
  unfold bind at 1 2.
  match goal with |- context [bind (loadTranslations h reply fallback) _ ?w0] =>
    set (written := w0);
    destruct (loadTranslations_spec h reply fallback written
                {| currentLanguage := langCode;
                   translations := translations this |} eq_refl)
      as (reloaded & again & E0 & E1 & Hagain & S1 & L1)
  end.
  unfold bind. rewrite E0.
  destruct (dispatch_languageChanged_spec h langCode reloaded)
    as (w' & E & E2 & S2 & L2).
  exists written, reloaded, w', again. rewrite E.
  repeat (split; [reflexivity || assumption|]).
  rewrite E2, E1, S2, S1, L2, L1. subst written. cbn.
  rewrite getItem_setItem, <- !app_assoc. auto.
Qed.

Lemma setLanguage_new_language_witness :
  exists written reloaded w' again,
    setLanguage plain_host (lit "hi") (Responded true (Some hindi))
      NetworkError home = (w', Some tt)
    /\ effects written
       = effects home ++ [SetItem (lit "sakha-language") (lit "hi")]
    /\ loadTranslations plain_host (Responded true (Some hindi)) NetworkError
         written = (reloaded, Some tt)
    /\ dispatch_languageChanged plain_host (lit "hi") reloaded = (w', Some tt)
    /\ effects w'
       = effects home
         ++ SetItem (lit "sakha-language") (lit "hi")
            :: Fetch (language_url (lit "hi"))
            :: again ++ [Dispatch (lit "languageChanged") (lit "hi")]
    /\ (again = [] \/ again = [Fetch (lit "/static/languages/en.json")])
    /\ getItem (lit "sakha-language") (localStorage w') = Some (lit "hi")
    /\ language w' = Some (lit "hi").
Proof.
  apply (setLanguage_new_language plain_host (lit "hi")
           (Responded true (Some hindi)) NetworkError home
           {| currentLanguage := lit "en"; translations := english |}).
  - reflexivity.
  - discriminate.
Defined.

(** ** Sending a message *)

(** C5: with an input that trims to the empty string, or while the page is
    not connected, [sendMessage] returns with the page as it was: nothing
    joined the transcript and no request was made. *)
Theorem sendMessage_guard (h : Host) (reply : Reply) (w : World) :
  trim (inputValue w) = [] \/ isConnected w = false ->
  sendMessage h reply w = (w, Some tt).
Proof.
  intros H. unfold sendMessage, sendMessage_begin, bind, gets.
  destruct H as [-> | ->]; [reflexivity|].
  now rewrite orb_true_r.
Qed.

Lemma sendMessage_guard_witness :
  sendMessage plain_host NetworkError blank_page = (blank_page, Some tt).
Proof.
  apply (sendMessage_guard plain_host NetworkError blank_page).
  left. reflexivity.
Defined.

Lemma addMessage_user (h : Host) (message : jstring) (w : World) :
  addMessage h (JStr message) (lit "user") false w
  = (set_scrollTimers (S (scrollTimers w))
       (set_messages (messages w ++ [user_entry message]) w), Some tt).
Proof. reflexivity. Qed.

Lemma addMessage_assistant (h : Host) (content : jstring) (isError : bool)
      (w : World) :
  addMessage h (JStr content) (lit "assistant") isError w
  = (set_scrollTimers (S (scrollTimers w))
       (set_messages (messages w ++ [assistant_entry content isError]) w),
     Some tt).
Proof. reflexivity. Qed.

Lemma sendMessage_begin_passes (h : Host) (w : World) :
  trim (inputValue w) <> [] ->
  isConnected w = true ->
  exists w1,
    sendMessage_begin h w = (w1, Some (Some (trim (inputValue w))))
    /\ messages w1 = messages w ++ [user_entry (trim (inputValue w))]
    /\ window_i18n w1 = window_i18n w
    /\ crisisShown w1 = crisisShown w
    /\ effects w1 = effects w.
Proof.
  intros Htext Hconnected. apply eqb_neq in Htext.
  unfold sendMessage_begin. unfold bind at 1 2, gets.
  rewrite Hconnected. cbn [truthy]. rewrite Htext. cbn [negb orb].
  unfold bind at 1, gets.
  destruct (negb (eqb (welcomeDisplay w) (lit "none")));
    unfold bind, modify, ret, showLoading; rewrite addMessage_user;
    eexists; (split; [reflexivity|]); repeat split.
Qed.

Lemma sendMessage_request_fails (h : Host) (message text : jstring)
      (reply : Reply) (w : World) :
  failed reply ->
  generic_error h w text ->
  exists w',
    sendMessage_request h message reply w = (w', Some tt)
    /\ messages w' = messages w ++ [assistant_entry text true]
    /\ loadingShown w' = false
    /\ crisisShown w' = crisisShown w.
Proof.
  intros Hfailed Herror. unfold generic_error in Herror.
  assert (Hhandler :
            sendMessage_request h message reply w
            = (hideLoading ;;
               i18n <- gets window_i18n ;;
               errorMessage <- match i18n with
                               | Some _ => call_t h (lit "app.error")
                               | None => ret (JStr default_error)
                               end ;;
               addMessage h errorMessage (lit "assistant") true)
                (set_effects
                   (effects w
                    ++ [Post (lit "/api/chat")
                          [ (lit "message", message);
                            (lit "mode", currentMode w);
                            (lit "language",
                             match window_i18n w with
                             | Some this => currentLanguage this
                             | None => lit "en"
                             end) ]]) w))
    by (destruct Hfailed as [-> | [json ->]]; reflexivity).
  rewrite Hhandler. clear Hhandler.
  unfold hideLoading. unfold bind at 1 2, modify, gets.
  cbn [window_i18n set_loadingShown set_effects].
  destruct (window_i18n w) as [this|] eqn:Hthis.
  - unfold call_t. unfold bind at 2, this_i18n.
    unfold bind, lift. cbn [window_i18n set_loadingShown set_effects].
    rewrite Hthis, Herror, addMessage_assistant.
    eexists; (split; [reflexivity|]); repeat split.
  - subst text. unfold bind, ret. rewrite addMessage_assistant.
    eexists; (split; [reflexivity|]); repeat split.
Qed.

(** C8: on a page that has a generic error string ([t] makes a string of
    [app.error], or there is no [window.i18n] and the English sentence
    stands in), a send whose chat request fails returns normally, the
    transcript has grown by the user's entry followed by one assistant
    entry in the error style that holds that string (as [formatMessage]
    renders it), the loading overlay is hidden, and the crisis modal is as
    it was: the send does not show it. *)
Theorem sendMessage_failed_request
  (h : Host) (reply : Reply) (w : World) (text : jstring) :
  trim (inputValue w) <> [] ->
  isConnected w = true ->
  failed reply ->
  generic_error h w text ->
  exists w',
    sendMessage h reply w = (w', Some tt)
    /\ messages w'
       = messages w
         ++ [user_entry (trim (inputValue w)); assistant_entry text true]
    /\ loadingShown w' = false
    /\ crisisShown w' = crisisShown w.
Proof.
  intros Htext Hconnected Hfailed Herror.
  destruct (sendMessage_begin_passes h w Htext Hconnected)
    as (w1 & E1 & M1 & I1 & C1 & _).
  assert (Herror1 : generic_error h w1 text)
    by (unfold generic_error in *; now rewrite I1).
  destruct (sendMessage_request_fails h (trim (inputValue w)) text reply w1
              Hfailed Herror1) as (w' & E2 & M2 & L2 & C2).
  exists w'. unfold sendMessage, bind. rewrite E1, E2.
  rewrite M2, M1, <- app_assoc, C2, C1. auto.
Qed.

Lemma sendMessage_failed_request_witness :
  exists w',
    sendMessage plain_host (Responded false None) home = (w', Some tt)
    /\ messages w'
       = messages home
         ++ [user_entry (trim (inputValue home));
             assistant_entry (lit "Please try again.") true]
    /\ loadingShown w' = false
    /\ crisisShown w' = crisisShown home.
Proof.
  apply (sendMessage_failed_request plain_host (Responded false None) home
           (lit "Please try again.")).
  - discriminate.
  - reflexivity.
  - right. exists None. reflexivity.
  - reflexivity.
Defined.

(** C8 as stated fails: on a page whose table has a group of messages at
    [app.error], [t] returns the group, [content.replace] of [addMessage]
    throws inside the [catch], and the failed send ends in an exception
    with the user's entry as the only one added: no assistant entry. *)
Lemma sendMessage_failed_without_error_string :
  failed NetworkError
  /\ trim (inputValue grouped_page) <> []
  /\ isConnected grouped_page = true
  /\ t plain_host grouped_errors (lit "app.error") JUndefined
     = Some (JObj [(lit "network", JStr (lit "No connection."));
                   (lit "server", JStr (lit "Please try again."))])
  /\ snd (sendMessage plain_host NetworkError grouped_page) = None
  /\ messages (fst (sendMessage plain_host NetworkError grouped_page))
     = messages grouped_page ++ [user_entry (lit "I feel low")].
Proof.
  repeat split; try discriminate. now left.
Qed.

(** ** The connectivity state *)

Lemma keeps_connectivity_sendMessage (h : Host) (reply : Reply) :
  keeps connectivity (sendMessage h reply).
Proof. frame. Qed.

Lemma keeps_connection_run (h : Host) (c : Call) :
  (forall reply, c <> CheckHealth reply) -> keeps connection (run h c).
Proof.
  intros Hc. destruct c; cbn [run]; try solve [frame].
  now elim (Hc reply).
Qed.

(** C9: [sendMessage] leaves the connectivity state as it was, whatever the
    reply to its request, and of all the calls that run on the controller
    only the health check changes the connected flag or the status dot. *)
Theorem connectivity_changes_only_in_checkHealth (h : Host) :
  (forall reply w,
      connectivity (fst (sendMessage h reply w)) = connectivity w)
  /\ (forall c w,
         connection (fst (run h c w)) <> connection w ->
         exists reply, c = CheckHealth reply).
Proof.
  split.
  - intros reply. apply keeps_connectivity_sendMessage.
  - intros c w Hchanged. destruct c as [reply| | | | | | |];
      try (exfalso; apply Hchanged; apply keeps_connection_run; discriminate).
    now exists reply.
Qed.

Lemma connectivity_changes_only_in_checkHealth_witness :
  connectivity (fst (sendMessage plain_host NetworkError home))
  = connectivity home
  /\ exists reply, CheckHealth unhealthy = CheckHealth reply.
Proof.
  split.
  - apply (proj1 (connectivity_changes_only_in_checkHealth plain_host)).
  - apply (proj2 (connectivity_changes_only_in_checkHealth plain_host)
             (CheckHealth unhealthy) home).
    vm_compute. discriminate.
Defined.

(** ** Switching the mode *)

Lemma first_with_mode_none (mode : jstring) (controls : list ModeControl) :
  (forall c, In c controls -> data_mode c <> Some mode) ->
  forall i, first_with_mode mode i (deactivated controls) = QNull.
Proof.
  induction controls as [|c rest IH]; intros Hnone i; [reflexivity|].
  assert (Hc : data_mode c <> Some mode) by (apply Hnone; now left).
  assert (Hrest : forall i, first_with_mode mode i (deactivated rest) = QNull)
    by (apply IH; intros; apply Hnone; now right).
  simpl.
  replace (data_mode (if mode_btn c then set_active false c else c))
    with (data_mode c) by (destruct (mode_btn c); reflexivity).
  destruct (data_mode c) as [m|]; [|apply Hrest].
  destruct (eqb mode m) eqn:E; [|apply Hrest].
  apply eqb_eq in E. congruence.
Qed.

Lemma plain_mode_unmatched (h : Host) (mode : jstring) (w : World) :
  css_plain mode = true ->
  (forall c, In c (modeControls w) -> data_mode c <> Some mode) ->
  unmatched h mode w.
Proof.
  intros Hplain Hnone. unfold unmatched, query_mode. rewrite Hplain.
  now rewrite first_with_mode_none.
Qed.

(** C10, amended: for a mode whose selector finds no element of the
    document, [setMode] sets the current mode, takes the active mark from
    every mode button, and then throws; no control is marked active and the
    placeholder is not refreshed. *)
Theorem setMode_unmatched (h : Host) (mode : jstring) (w : World) :
  unmatched h mode w ->
  setMode h mode w
  = (set_modeControls (deactivated (modeControls w)) (set_currentMode mode w),
     None).
Proof.
  unfold unmatched, setMode, bind, modify, gets.
  cbn [modeControls set_modeControls set_currentMode].
  destruct (query_mode h mode (deactivated (modeControls w)));
    intros Hnone; now try elim Hnone.
Qed.

Lemma setMode_unmatched_witness :
  setMode plain_host (lit "zen") home
  = (set_modeControls (deactivated (modeControls home))
       (set_currentMode (lit "zen") home), None).
Proof.
  apply (setMode_unmatched plain_host (lit "zen") home).
  vm_compute. exact I.
Defined.

(** C10 as stated fails: [setMode] of a mode without a control throws, but
    not before it has touched the active marks; the button of the mode that
    was current has lost its. *)
Lemma setMode_unmatched_clears_active :
  snd (setMode plain_host (lit "zen") home) = None
  /\ map active (modeControls home) = [true; false]
  /\ map active (modeControls (fst (setMode plain_host (lit "zen") home)))
     = [false; false].
Proof. repeat split. Qed.

(** * Further properties of the two classes *)

(** ** [detectLanguage] and the language picker *)

(** X1: a choice found in the storage, if it is not the empty string, is
    the detected language, whatever it is and whatever the browser
    reports. *)
Theorem detectLanguage_saved
  (area : list (jstring * jstring)) (language userLanguage : jvalue)
  (savedLang : jstring) :
  getItem (lit "sakha-language") area = Some savedLang ->
  savedLang <> [] ->
  detectLanguage area language userLanguage = Some savedLang.
Proof.
  intros Hsaved Hnonempty. apply eqb_neq in Hnonempty.
  unfold detectLanguage. rewrite Hsaved. cbn [truthy].
  now rewrite Hnonempty.
Qed.

Lemma detectLanguage_saved_witness :
  detectLanguage [(lit "sakha-language", lit "ta")] (JStr (lit "fr-FR"))
    JUndefined
  = Some (lit "ta").
Proof.
  apply (detectLanguage_saved [(lit "sakha-language", lit "ta")]
           (JStr (lit "fr-FR")) JUndefined (lit "ta")).
  - reflexivity.
  - discriminate.
Defined.

Lemma supported_in_catalog (detected : jstring) :
  In detected supportedLangs -> In detected (map code getSupportedLanguages).
Proof.
  intros [<-|[<-|[<-|[<-|[]]]]]; cbn [map getSupportedLanguages code];
    simpl; tauto.
Qed.

(** X2: without a choice in the storage (none, or the empty string), a
    language that [detectLanguage] returns is one of en, hi, fr, es, and
    so one that the language picker offers. *)
Theorem detectLanguage_from_browser
  (area : list (jstring * jstring)) (language userLanguage : jvalue)
  (detected : jstring) :
  getItem (lit "sakha-language") area = None
  \/ getItem (lit "sakha-language") area = Some [] ->
  detectLanguage area language userLanguage = Some detected ->
  In detected supportedLangs
  /\ In detected (map code getSupportedLanguages).
Proof.
  intros Hnone Hdetected.
  assert (Hbrowser : browser_language language userLanguage = Some detected).
  { unfold detectLanguage in Hdetected.
    destruct Hnone as [E|E]; rewrite E in Hdetected; exact Hdetected. }
  assert (Hsupported : In detected supportedLangs).
  { unfold browser_language in Hbrowser.
    destruct (if truthy language then language else userLanguage);
      try discriminate.
    destruct (existsb _ supportedLangs) eqn:E.
    - injection Hbrowser as <-. apply existsb_exists in E as (x & Hx & Ex).
      apply eqb_eq in Ex. now rewrite Ex.
    - injection Hbrowser as <-. simpl. tauto. }
  split; [exact Hsupported | now apply supported_in_catalog].
Qed.

Lemma detectLanguage_from_browser_witness :
  In (lit "en") supportedLangs
  /\ In (lit "en") (map code getSupportedLanguages).
Proof.
  apply (detectLanguage_from_browser [] (JStr (lit "de-AT")) JUndefined
           (lit "en")).
  - left. reflexivity.
  - reflexivity.
Defined.

(** X3: without a choice in the storage, a browser language made of a
    supported language, a dash and anything after it is detected as that
    language. *)
Theorem detectLanguage_regional_variant
  (area : list (jstring * jstring)) (userLanguage : jvalue)
  (lang region : jstring) :
  getItem (lit "sakha-language") area = None ->
  In lang supportedLangs ->
  detectLanguage area (JStr (lang ++ DASH :: region)) userLanguage = Some lang.
Proof.
  intros Hnone Hlang. unfold detectLanguage. rewrite Hnone.
  destruct Hlang as [<-|[<-|[<-|[<-|[]]]]]; reflexivity.
Qed.

Lemma detectLanguage_regional_variant_witness :
  detectLanguage [] (JStr (lit "hi" ++ DASH :: lit "IN")) JUndefined
  = Some (lit "hi").
Proof.
  apply (detectLanguage_regional_variant [] JUndefined (lit "hi") (lit "IN")).
  - reflexivity.
  - right. left. reflexivity.
Defined.

Lemma setLanguage_outcome
      (h : Host) (langCode : jstring) (reply fallback : Reply) (w : World)
      (this : I18n) :
  window_i18n w = Some this ->
  currentLanguage this <> langCode ->
  exists w',
    setLanguage h langCode reply fallback w = (w', Some tt)
    /\ getItem (lit "sakha-language") (localStorage w') = Some langCode
    /\ language w' = Some langCode.
Proof.
  intros Hthis Hne. apply eqb_neq in Hne.
  unfold setLanguage. unfold bind at 1, this_i18n. rewrite Hthis, Hne.
  unfold set_currentLanguage.
  unfold bind at 1 2, this_i18n, emit, modify. rewrite Hthis.
  unfold bind at 1 2.
  match goal with |- context [bind (loadTranslations h reply fallback) _ ?w0] =>
    set (written := w0);
    destruct (loadTranslations_spec h reply fallback written
                {| currentLanguage := langCode;
                   translations := translations this |} eq_refl)
      as (reloaded & again & E0 & _ & _ & S1 & L1)
  end.
  unfold bind. rewrite E0.
  destruct (dispatch_languageChanged_spec h langCode reloaded)
    as (w' & E & _ & S2 & L2).
  exists w'. split; [exact E|].
  rewrite S2, S1, L2, L1. subst written. cbn.
  split; [apply getItem_setItem | reflexivity].
Qed.

(** X4: a language chosen with [setLanguage] is the language of the next
    load of the page: on a page with the storage that [setLanguage] left,
    the constructor of [I18n] returns normally with that language, whatever
    the browser reports.  The empty code is the exception, it reads as no
    choice. *)
Theorem chosen_language_survives_reload
  (h : Host) (langCode : jstring) (reply fallback : Reply) (w : World)
  (this : I18n) (language' userLanguage' : jvalue) (reply' fallback' : Reply)
  (page : World) :
  window_i18n w = Some this ->
  currentLanguage this <> langCode ->
  langCode <> [] ->
  localStorage page
  = localStorage (fst (setLanguage h langCode reply fallback w)) ->
  snd (new_I18n h language' userLanguage' reply' fallback' page) = Some tt
  /\ language (fst (new_I18n h language' userLanguage' reply' fallback' page))
     = Some langCode.
Proof.
  intros Hthis Hne Hnonempty Hpage.
  destruct (setLanguage_outcome h langCode reply fallback w this Hthis Hne)
    as (w1 & E1 & Hsaved & _).
  rewrite E1 in Hpage. cbn [fst] in Hpage.
  rewrite <- Hpage in Hsaved. apply eqb_neq in Hnonempty.
  assert (E : new_I18n h language' userLanguage' reply' fallback' page
              = loadTranslations h reply' fallback'
                  (set_window_i18n
                     (Some {| currentLanguage := langCode;
                              translations := JObj [] |}) page)).
  { unfold new_I18n, bind, gets, lift, modify, detectLanguage.
    rewrite Hsaved. cbn [truthy]. now rewrite Hnonempty. }
  rewrite E.
  match goal with |- context [loadTranslations h reply' fallback' ?w0] =>
    destruct (loadTranslations_spec h reply' fallback' w0
                {| currentLanguage := langCode; translations := JObj [] |}
                eq_refl)
      as (loaded & again & -> & _ & _ & _ & L)
  end.
  split; [reflexivity | exact L].
Qed.

Lemma chosen_language_survives_reload_witness :
  snd (new_I18n plain_host (JStr (lit "en-US")) JUndefined NetworkError
         NetworkError
         (fst (setLanguage plain_host (lit "hi") NetworkError NetworkError home)))
  = Some tt
  /\ language
       (fst (new_I18n plain_host (JStr (lit "en-US")) JUndefined NetworkError
               NetworkError
               (fst (setLanguage plain_host (lit "hi") NetworkError
                       NetworkError home))))
     = Some (lit "hi").
Proof.
  apply (chosen_language_survives_reload plain_host (lit "hi") NetworkError
           NetworkError home
           {| currentLanguage := lit "en"; translations := english |}
           (JStr (lit "en-US")) JUndefined NetworkError NetworkError
           (fst (setLanguage plain_host (lit "hi") NetworkError NetworkError
                   home))).
  - reflexivity.
  - discriminate.
  - discriminate.
  - reflexivity.
Defined.

(** ** Reasoning about what a method maintains and ensures *)

Section Maintains.

Context (P : World -> Prop).

Lemma maintains_ret {A} (a : A) : maintains P (ret a).
Proof. intros w Hw; exact Hw. Qed.

Lemma maintains_throw {A} : maintains P (@throw A).
Proof. intros w Hw; exact Hw. Qed.

Lemma maintains_lift {A} (o : option A) : maintains P (lift o).
Proof. intros w Hw; exact Hw. Qed.

Lemma maintains_gets {A} (f : World -> A) : maintains P (gets f).
Proof. intros w Hw; exact Hw. Qed.

Lemma maintains_this : maintains P this_i18n.
Proof. intros w Hw; exact Hw. Qed.

Lemma maintains_await (r : Reply) : maintains P (await_reply r).
Proof. intros w Hw; destruct r; exact Hw. Qed.

Lemma maintains_modify (f : World -> World) :
  (forall w, P w -> P (f w)) -> maintains P (modify f).
Proof. intros H w Hw; now apply H. Qed.

Lemma maintains_bind {A B} (m : M A) (k : A -> M B) :
  maintains P m -> (forall a, maintains P (k a)) -> maintains P (bind m k).
Proof.
  intros Hm Hk w Hw. unfold bind. specialize (Hm w Hw).
  destruct (m w) as [w' [a|]]; cbn [fst] in *; [|assumption].
  now apply Hk.
Qed.

Lemma maintains_bind_lift {A B} (o : option A) (k : A -> M B) :
  (forall a, o = Some a -> maintains P (k a)) -> maintains P (bind (lift o) k).
Proof.
  intros Hk w Hw. unfold bind, lift. destruct o as [a|]; [|exact Hw].
  now apply (Hk a).
Qed.

Lemma maintains_bind_await {B} (r : Reply) (k : bool * option jvalue -> M B) :
  (forall ok json, r = Responded ok json -> maintains P (k (ok, json))) ->
  maintains P (bind (await_reply r) k).
Proof.
  intros Hk w Hw. unfold bind. destruct r as [|ok json]; [exact Hw|].
  now apply (Hk ok json).
Qed.

Lemma maintains_try_catch {A} (body handler : M A) :
  maintains P body -> maintains P handler ->
  maintains P (try_catch body handler).
Proof.
  intros Hb Hh w Hw. unfold try_catch. specialize (Hb w Hw).
  destruct (body w) as [w' [a|]]; cbn [fst] in *; [assumption|].
  now apply Hh.
Qed.

Context (Q : World -> Prop).

Lemma ensures_throw {A} : ensures P (@throw A) Q.
Proof. intros w _ H. now elim H. Qed.

Lemma ensures_bind {A B} (m : M A) (k : A -> M B) :
  maintains P m -> (forall a, ensures P (k a) Q) -> ensures P (bind m k) Q.
Proof.
  intros Hm Hk w Hw. unfold bind. specialize (Hm w Hw).
  destruct (m w) as [w' [a|]]; cbn [fst snd] in *; [|intros H; now elim H].
  now apply Hk.
Qed.

Lemma ensures_bind_lift {A B} (o : option A) (k : A -> M B) :
  (forall a, o = Some a -> ensures P (k a) Q) -> ensures P (bind (lift o) k) Q.
Proof.
  intros Hk w Hw. unfold bind, lift.
  destruct o as [a|]; [now apply (Hk a) | intros H; now elim H].
Qed.

Lemma ensures_bind_await {B} (r : Reply) (k : bool * option jvalue -> M B) :
  (forall ok json, r = Responded ok json -> ensures P (k (ok, json)) Q) ->
  ensures P (bind (await_reply r) k) Q.
Proof.
  intros Hk w Hw. unfold bind.
  destruct r as [|ok json]; [intros H; now elim H | now apply (Hk ok json)].
Qed.

Lemma ensures_try_catch {A} (body handler : M A) :
  maintains P body -> ensures P body Q -> ensures P handler Q ->
  ensures P (try_catch body handler) Q.
Proof.
  intros Hm Hb Hh w Hw. unfold try_catch.
  specialize (Hm w Hw). specialize (Hb w Hw).
  destruct (body w) as [w' [a|]]; cbn [fst snd] in *.
  - intros _. apply Hb. discriminate.
  - now apply Hh.
Qed.

End Maintains.

Lemma keeps_maintains {A X} (proj : World -> X) (R : X -> Prop) (m : M A) :
  keeps proj m -> maintains (fun w => R (proj w)) m.
Proof. intros Hk w Hw. now rewrite Hk. Qed.

(** One step of a proof that a method maintains a property; [tac] shows
    that an update of the page takes a page with the property to one with
    it. *)
Ltac maintain_step tac :=
  lazymatch goal with
  | |- maintains _ (ret _) => apply maintains_ret
  | |- maintains _ throw => apply maintains_throw
  | |- maintains _ (lift _) => apply maintains_lift
  | |- maintains _ (gets _) => apply maintains_gets
  | |- maintains _ this_i18n => apply maintains_this
  | |- maintains _ (await_reply _) => apply maintains_await
  | |- maintains _ (set_translations _) => unfold set_translations
  | |- maintains _ (bind _ _) => apply maintains_bind; [|intro]
  | |- maintains _ (try_catch _ _) => apply maintains_try_catch
  | |- maintains _ (modify _) =>
      apply maintains_modify; intros ?;
      repeat match goal with
             | |- context [match ?x with _ => _ end] => destruct x
             end; tac
  | |- maintains _ (each_localized _) =>
      unfold each_localized; apply maintains_bind; [apply maintains_this|];
      intros ? ?; cbv beta; destruct (for_each _ _); cbn [fst]; tac
  | |- maintains _ (match ?x with _ => _ end) => destruct x
  end.

Ltac maintain tac := repeat (autounfold with methods; maintain_step tac).

(** ** Reloading the translations *)

(** X5: when neither the document of the language nor the English one can
    be had, the reload returns normally and has changed nothing on the
    page; it has only made its two requests. *)
Theorem loadTranslations_both_fail
  (h : Host) (reply fallback : Reply) (w : World) (this : I18n) :
  window_i18n w = Some this ->
  no_document reply ->
  no_fallback fallback ->
  loadTranslations h reply fallback w
  = (set_effects
       (effects w ++ [Fetch (language_url (currentLanguage this));
                      Fetch (lit "/static/languages/en.json")]) w,
     Some tt).
Proof.
  intros Hthis Hreply Hfallback.
  unfold loadTranslations, loadFallbackTranslations, try_catch, bind,
    this_i18n, emit, modify.
  rewrite Hthis.
  destruct Hreply as [-> | [[json ->] | ->]];
    destruct Hfallback as [-> | [ok ->]];
    cbn; rewrite <- app_assoc; reflexivity.
Qed.

Lemma loadTranslations_both_fail_witness :
  loadTranslations plain_host (Responded false None) NetworkError home
  = (set_effects
       (effects home ++ [Fetch (language_url (lit "en"));
                         Fetch (lit "/static/languages/en.json")]) home,
     Some tt).
Proof.
  apply (loadTranslations_both_fail plain_host (Responded false None)
           NetworkError home
           {| currentLanguage := lit "en"; translations := english |}).
  - reflexivity.
  - right. left. exists None. reflexivity.
  - left. reflexivity.
Defined.

Lemma maintains_reloaded_set_translations
      (this : I18n) (reply fallback : Reply) (data : jvalue) :
  reply = Responded true (Some data)
  \/ (exists ok, fallback = Responded ok (Some data)) ->
  maintains (reloaded_from this reply fallback) (set_translations data).
Proof.
  intros Hdata w (this' & E & C & _).
  unfold set_translations, bind, this_i18n, modify. rewrite E. cbn.
  eexists. split; [reflexivity|]. cbn. split; [exact C|]. now right.
Qed.

Ltac reloaded_update :=
  intros (? & ? & ? & ?); eexists; split; [eassumption | split; assumption].

Lemma maintains_reloaded_applyTranslations
      (h : Host) (this : I18n) (reply fallback : Reply) :
  maintains (reloaded_from this reply fallback) (applyTranslations h).
Proof. maintain reloaded_update. Qed.

Lemma maintains_reloaded_loadFallback
      (h : Host) (this : I18n) (reply fallback : Reply) :
  maintains (reloaded_from this reply fallback)
            (loadFallbackTranslations h fallback).
Proof.
  unfold loadFallbackTranslations.
  apply maintains_try_catch; [|apply maintains_ret].
  apply maintains_bind;
    [unfold emit; apply maintains_modify; intros ?; reloaded_update|].
  intros _. apply maintains_bind_await. intros ok json ->.
  apply maintains_bind_lift. cbn [snd]. intros data ->.
  apply maintains_bind; [|intros _; apply maintains_reloaded_applyTranslations].
  apply maintains_reloaded_set_translations. right. now exists ok.
Qed.

(** X6: a reload never mixes tables and never changes the language: after
    it the instance is in the language it was in, and its table is the one
    it had, the document that came for the language, or the document that
    came for English. *)
Theorem loadTranslations_replaces_wholesale
  (h : Host) (reply fallback : Reply) (w : World) (this : I18n) :
  window_i18n w = Some this ->
  reloaded_from this reply fallback (fst (loadTranslations h reply fallback w)).
Proof.
  intros Hthis.
  assert (Hstart : reloaded_from this reply fallback w).
  { exists this. split; [exact Hthis|]. split; [reflexivity | now left]. }
  revert w Hstart Hthis. intros w Hstart _. revert w Hstart.
  change (maintains (reloaded_from this reply fallback)
                    (loadTranslations h reply fallback)).
  unfold loadTranslations.
  apply maintains_try_catch; [|apply maintains_reloaded_loadFallback].
  apply maintains_bind; [apply maintains_this|]. intros this0.
  apply maintains_bind;
    [unfold emit; apply maintains_modify; intros ?; reloaded_update|].
  intros _. apply maintains_bind_await. intros ok json ->. cbn [fst snd].
  destruct ok; [|apply maintains_reloaded_loadFallback].
  apply maintains_bind_lift. intros data ->.
  apply maintains_bind; [|intros _; apply maintains_reloaded_applyTranslations].
  apply maintains_reloaded_set_translations. now left.
Qed.

Lemma loadTranslations_replaces_wholesale_witness :
  reloaded_from {| currentLanguage := lit "en"; translations := english |}
    (Responded true (Some hindi)) NetworkError
    (fst (loadTranslations plain_host (Responded true (Some hindi))
            NetworkError home)).
Proof.
  apply (loadTranslations_replaces_wholesale plain_host
           (Responded true (Some hindi)) NetworkError home
           {| currentLanguage := lit "en"; translations := english |}).
  reflexivity.
Defined.

(** ** Applying the translations *)

#[local] Hint Unfold checkHealth new_I18n : methods.

Lemma ensures_updateLanguageSelector (this : I18n) (selector : Select) :
  ensures (fun w => picker_state w = (Some this, Some selector))
          updateLanguageSelector
          (fun w => languageSelector w
                    = Some (select_value (currentLanguage this) selector)).
Proof.
  intros w Hw _. unfold picker_state in Hw. injection Hw as Hthis Hselector.
  unfold updateLanguageSelector, bind, this_i18n, modify.
  rewrite Hthis. cbn [fst]. now rewrite Hselector.
Qed.

Lemma existsb_eqb_In (x : jstring) (l : list jstring) :
  existsb (eqb x) l = true <-> In x l.
Proof.
  rewrite existsb_exists. split.
  - intros (y & Hy & E). apply eqb_eq in E. now subst.
  - intros H. exists x. split; [exact H | apply eqb_refl].
Qed.

(** X8: where [applyTranslations] returns normally, the language picker
    has the options it had and shows the current language if it offers
    it, and no language if it does not. *)
Theorem applyTranslations_mirrors_language
  (h : Host) (w : World) (this : I18n) (selector : Select) :
  window_i18n w = Some this ->
  languageSelector w = Some selector ->
  snd (applyTranslations h w) = Some tt ->
  exists shown,
    languageSelector (fst (applyTranslations h w)) = Some shown
    /\ options shown = options selector
    /\ (In (currentLanguage this) (options selector) ->
        selected shown = currentLanguage this)
    /\ (~ In (currentLanguage this) (options selector) -> selected shown = []).
Proof.
  intros Hthis Hselector Hnormal.
  assert (E : languageSelector (fst (applyTranslations h w))
              = Some (select_value (currentLanguage this) selector)).
  { revert Hnormal.
    assert (Hw : picker_state w = (Some this, Some selector))
      by (unfold picker_state; congruence).
    intros Hnormal. revert w Hw Hnormal Hthis Hselector.
    intros w Hw Hnormal _ _.
    assert (Hn : snd (applyTranslations h w) <> None) by congruence.
    revert w Hw Hn Hnormal. intros w Hw Hn _. revert w Hw Hn.
    change (ensures (fun w => picker_state w = (Some this, Some selector))
              (applyTranslations h)
              (fun w => languageSelector w
                        = Some (select_value (currentLanguage this) selector))).
    unfold applyTranslations.
    do 6 (apply ensures_bind;
          [apply (keeps_maintains picker_state
                    (fun s => s = (Some this, Some selector))); frame
          | intro]).
    apply ensures_updateLanguageSelector. }
  eexists. split; [exact E|]. unfold select_value. cbn [options selected].
  split; [reflexivity|]. split; intros Hin.
  - apply existsb_eqb_In in Hin. now rewrite Hin.
  - destruct (existsb _ _) eqn:Ex; [|reflexivity].
    apply existsb_eqb_In in Ex. contradiction.
Qed.

Lemma applyTranslations_mirrors_language_witness :
  exists shown,
    languageSelector (fst (applyTranslations plain_host home)) = Some shown
    /\ options shown = [lit "en"; lit "hi"]
    /\ (In (lit "en") [lit "en"; lit "hi"] -> selected shown = lit "en")
    /\ (~ In (lit "en") [lit "en"; lit "hi"] -> selected shown = []).
Proof.
  apply (applyTranslations_mirrors_language plain_host home
           {| currentLanguage := lit "en"; translations := english |}
           {| options := [lit "en"; lit "hi"]; selected := lit "en" |});
    reflexivity.
Defined.

(** ** Sending a message: the request, the answer, the transcript *)

Lemma maintains_True {A} (m : M A) : maintains (fun _ => True) m.
Proof. intros w _. exact I. Qed.

Lemma always_after_modify {A X} (proj : World -> X) (f : World -> World)
      (k : M A) (v : X) :
  (forall w, proj (f w) = v) -> keeps proj k ->
  forall w, proj (fst ((modify f ;; k) w)) = v.
Proof. intros Hf Hk w. unfold bind, modify. now rewrite Hk. Qed.

Lemma try_catch_always {A} (Q : World -> Prop) (body handler : M A) :
  ensures (fun _ => True) body Q ->
  (forall w, Q (fst (handler w))) ->
  forall w, Q (fst (try_catch body handler w)).
Proof.
  intros Hb Hh w. unfold try_catch. specialize (Hb w I).
  destruct (body w) as [w' [a|]]; cbn [fst snd] in *; [|apply Hh].
  apply Hb. discriminate.
Qed.

Lemma member_get (h : Host) (data v : jvalue) (k k' : jstring) :
  member h data k = Some v ->
  member h data k' = Some (get_property h data k').
Proof. destruct data; cbn [member]; try discriminate; reflexivity. Qed.

Lemma addMessage_not_a_string (h : Host) (content : jvalue) (isError : bool)
      (w : World) :
  is_string content = false ->
  addMessage h content (lit "assistant") isError w = (w, None).
Proof. intros Hc. destruct content; try discriminate; reflexivity. Qed.

Lemma sendMessage_request_effects (h : Host) (message : jstring)
      (reply : Reply) (w : World) :
  effects (fst (sendMessage_request h message reply w))
  = effects w
    ++ [Post (lit "/api/chat")
          [ (lit "message", message);
            (lit "mode", currentMode w);
            (lit "language", match window_i18n w with
                             | Some this => currentLanguage this
                             | None => lit "en"
                             end) ]].
Proof.
  unfold sendMessage_request, try_catch. unfold bind at 1 2, gets at 1 2.
  match goal with |- context [(emit ?e ;; ?k) w] =>
    pose proof (emit_bind_effects e k w) as E;
    assert (K : keeps effects k) by frame
  end.
  specialize (E K).
  destruct ((_ ;; _) w) as [w' [[]|]]; cbn [fst] in *; [exact E|].
  match goal with |- effects (fst (?handler w')) = _ =>
    assert (Hh : keeps effects handler) by frame; now rewrite Hh
  end.
Qed.

Lemma sendMessage_request_hides_loading (h : Host) (message : jstring)
      (reply : Reply) (w : World) :
  loadingShown (fst (sendMessage_request h message reply w)) = false.
Proof.
  revert w. unfold sendMessage_request.
  apply (try_catch_always (fun w => loadingShown w = false)).
  - do 3 (apply ensures_bind; [apply maintains_True | intro]).
    apply ensures_bind_await. intros ok json _. cbn [fst snd].
    destruct ok; cbn [negb]; [|apply ensures_throw].
    apply ensures_bind_lift. intros data _ w _ _. revert w.
    unfold hideLoading. apply always_after_modify; [reflexivity | frame].
  - unfold hideLoading. apply always_after_modify; [reflexivity | frame].
Qed.

Lemma sendMessage_begin_begun (h : Host) (w : World) :
  trim (inputValue w) <> [] ->
  isConnected w = true ->
  exists w1,
    sendMessage_begin h w = (w1, Some (Some (trim (inputValue w))))
    /\ messages w1 = messages w ++ [user_entry (trim (inputValue w))]
    /\ window_i18n w1 = window_i18n w
    /\ currentMode w1 = currentMode w
    /\ crisisShown w1 = crisisShown w
    /\ effects w1 = effects w
    /\ inputValue w1 = []
    /\ sendDisabled w1 = true
    /\ welcomeDisplay w1 = lit "none".
Proof.
  intros Htext Hconnected. apply eqb_neq in Htext.
  unfold sendMessage_begin. unfold bind at 1 2, gets.
  rewrite Hconnected. cbn [truthy]. rewrite Htext. cbn [negb orb].
  unfold bind at 1, gets.
  destruct (eqb (welcomeDisplay w) (lit "none")) eqn:E; cbn [negb];
    unfold bind, modify, ret, showLoading; rewrite addMessage_user;
    eexists; (split; [reflexivity|]); repeat split.
  cbn. now apply eqb_eq.
Qed.

Lemma sendMessage_catch_spec (h : Host) (text : jstring) (w : World) :
  generic_error h w text ->
  exists w',
    sendMessage_catch h w = (w', Some tt)
    /\ messages w' = messages w ++ [assistant_entry text true]
    /\ loadingShown w' = false
    /\ crisisShown w' = crisisShown w.
Proof.
  intros Herror. unfold generic_error in Herror.
  unfold sendMessage_catch, hideLoading. unfold bind at 1 2, modify, gets.
  cbn [window_i18n set_loadingShown set_effects].
  destruct (window_i18n w) as [this|] eqn:Hthis.
  - unfold call_t. unfold bind, lift, this_i18n.
    cbn [window_i18n set_loadingShown set_effects].
    rewrite Hthis, Herror, addMessage_assistant.
    eexists; (split; [reflexivity|]); repeat split.
  - subst text. unfold bind, ret. rewrite addMessage_assistant.
    eexists; (split; [reflexivity|]); repeat split.
Qed.

(** X9: a send that passes the guard and gets a success reply whose body
    has a string for [response] returns normally; the transcript has grown
    by the user's entry and then the assistant's, which holds the response
    as [formatMessage] renders it and is not in the error style; the
    loading overlay is hidden; the crisis modal is shown if the body's
    [crisis_detected] is truthy, and is as it was if not. *)
Theorem sendMessage_answered
  (h : Host) (data : jvalue) (answer : jstring) (w : World) :
  trim (inputValue w) <> [] ->
  isConnected w = true ->
  member h data (lit "response") = Some (JStr answer) ->
  exists w',
    sendMessage h (Responded true (Some data)) w = (w', Some tt)
    /\ messages w'
       = messages w
         ++ [user_entry (trim (inputValue w)); assistant_entry answer false]
    /\ loadingShown w' = false
    /\ crisisShown w'
       = crisisShown w
         || truthy (get_property h data (lit "crisis_detected")).
Proof.
  intros Htext Hconnected Hanswer.
  destruct (sendMessage_begin_begun h w Htext Hconnected)
    as (w1 & E1 & M1 & _ & _ & C1 & _).
  unfold sendMessage, bind. rewrite E1.
  unfold sendMessage_request, try_catch, bind, gets, emit, hideLoading,
    modify, await_reply, ret, lift.
  cbn [fst snd negb]. rewrite Hanswer. cbv beta iota.
  rewrite addMessage_assistant. cbv beta iota.
  rewrite (member_get h data (JStr answer) (lit "response")
             (lit "crisis_detected") Hanswer). cbv beta iota.
  destruct (truthy (get_property h data (lit "crisis_detected")));
    eexists; (split; [reflexivity|]); repeat split; cbn;
    rewrite ?M1, ?C1, <- ?app_assoc, ?orb_true_r, ?orb_false_r; reflexivity.
Qed.

Lemma sendMessage_answered_witness :
  exists w',
    sendMessage plain_host (Responded true (Some calm_answer)) home
    = (w', Some tt)
    /\ messages w'
       = messages home
         ++ [user_entry (trim (inputValue home));
             assistant_entry (lit "**Breathe** with me.") false]
    /\ loadingShown w' = false
    /\ crisisShown w'
       = crisisShown home
         || truthy (get_property plain_host calm_answer (lit "crisis_detected")).
Proof.
  apply (sendMessage_answered plain_host calm_answer
           (lit "**Breathe** with me.") home).
  - discriminate.
  - reflexivity.
  - reflexivity.
Defined.

Lemma sendMessage_request_unusable (h : Host) (message : jstring)
      (reply : Reply) (w : World) :
  unusable h reply ->
  exists w2,
    sendMessage_request h message reply w = sendMessage_catch h w2
    /\ messages w2 = messages w
    /\ window_i18n w2 = window_i18n w
    /\ crisisShown w2 = crisisShown w.
Proof.
  intros [-> | (data & -> & Hmember)].
  - eexists. split; [reflexivity|]. repeat split.
  - unfold sendMessage_request, try_catch, bind, gets, emit, hideLoading,
      modify, await_reply, ret, lift.
    cbn [fst snd negb].
    destruct Hmember as [-> | (v & -> & Hv)]; cbv beta iota.
    + eexists. split; [reflexivity|]. repeat split.
    + rewrite addMessage_not_a_string by exact Hv. cbv beta iota.
      eexists. split; [reflexivity|]. repeat split.
Qed.

(** X10: on a page that has a generic error string ([t] makes a string of
    [app.error], or there is no [window.i18n]), a success reply that cannot
    be used, because its body is no JSON or the [response] of its body is
    no string, is handled as a failed request is: the send returns
    normally, the user's entry is followed by one assistant entry in the
    error style with that string, the loading overlay is hidden and the
    crisis modal is as it was. *)
Theorem sendMessage_unusable_reply
  (h : Host) (reply : Reply) (w : World) (text : jstring) :
  trim (inputValue w) <> [] ->
  isConnected w = true ->
  unusable h reply ->
  generic_error h w text ->
  exists w',
    sendMessage h reply w = (w', Some tt)
    /\ messages w'
       = messages w
         ++ [user_entry (trim (inputValue w)); assistant_entry text true]
    /\ loadingShown w' = false
    /\ crisisShown w' = crisisShown w.
Proof.
  intros Htext Hconnected Hreply Herror.
  destruct (sendMessage_begin_begun h w Htext Hconnected)
    as (w1 & E1 & M1 & I1 & _ & C1 & _).
  destruct (sendMessage_request_unusable h (trim (inputValue w)) reply w1
              Hreply) as (w2 & E2 & M2 & I2 & C2).
  assert (Herror2 : generic_error h w2 text)
    by (unfold generic_error in *; now rewrite I2, I1).
  destruct (sendMessage_catch_spec h text w2 Herror2) as (w' & E & M & L & C).
  exists w'. unfold sendMessage, bind. rewrite E1, E2, E.
  rewrite M, M2, M1, <- app_assoc, C, C2, C1. auto.
Qed.

Lemma sendMessage_unusable_reply_witness :
  exists w',
    sendMessage plain_host
      (Responded true (Some (JObj [(lit "reply", JStr (lit "hello"))]))) home
    = (w', Some tt)
    /\ messages w'
       = messages home
         ++ [user_entry (trim (inputValue home));
             assistant_entry (lit "Please try again.") true]
    /\ loadingShown w' = false
    /\ crisisShown w' = crisisShown home.
Proof.
  apply (sendMessage_unusable_reply plain_host
           (Responded true (Some (JObj [(lit "reply", JStr (lit "hello"))])))
           home (lit "Please try again.")).
  - discriminate.
  - reflexivity.
  - right. eexists. split; [reflexivity|]. right.
    exists JUndefined. split; reflexivity.
  - reflexivity.
Defined.

Lemma keeps_input_sendMessage_request (h : Host) (message : jstring)
      (reply : Reply) :
  keeps (fun w => (inputValue w, sendDisabled w, welcomeDisplay w))
        (sendMessage_request h message reply).
Proof. frame. Qed.

(** X11: a send that passes the guard makes exactly one request, whatever
    the reply and also where the send ends in an exception: a POST to
    [/api/chat] with the trimmed input, the current mode and the current
    language (or [en] without [window.i18n]).  After it the input is
    empty, the send button is disabled, the loading overlay is hidden and
    the welcome view is gone. *)
Theorem sendMessage_one_request (h : Host) (reply : Reply) (w : World) :
  trim (inputValue w) <> [] ->
  isConnected w = true ->
  let w' := fst (sendMessage h reply w) in
  effects w' = effects w ++ [chat_request w]
  /\ inputValue w' = []
  /\ sendDisabled w' = true
  /\ loadingShown w' = false
  /\ welcomeDisplay w' = lit "none".
Proof.
  intros Htext Hconnected.
  destruct (sendMessage_begin_begun h w Htext Hconnected)
    as (w1 & E1 & _ & I1 & Mo1 & _ & Ef1 & V1 & D1 & W1).
  unfold sendMessage, bind. rewrite E1. cbv zeta.
  pose proof (keeps_input_sendMessage_request h (trim (inputValue w)) reply w1)
    as K. cbv beta in K. rewrite V1, D1, W1 in K.
  injection K as KV KD KW.
  rewrite sendMessage_request_effects, sendMessage_request_hides_loading.
  rewrite Ef1, Mo1, I1. unfold chat_request. auto.
Qed.

Lemma sendMessage_one_request_witness :
  let w' := fst (sendMessage plain_host NetworkError home) in
  effects w' = effects home ++ [chat_request home]
  /\ inputValue w' = []
  /\ sendDisabled w' = true
  /\ loadingShown w' = false
  /\ welcomeDisplay w' = lit "none".
Proof.
  apply (sendMessage_one_request plain_host NetworkError home).
  - discriminate.
  - reflexivity.
Defined.

Ltac extends_update :=
  first [ intros ?; assumption
        | intros (added & E); eexists; cbn [messages set_messages];
          rewrite map_app, E, <- app_assoc; reflexivity ].

(** X12: no entry of the transcript is removed, moved or restyled: after
    every call on the controller, whatever the replies and also where the
    call throws, the entries there were before the call are there in
    their order, each with its class, its avatar and its error style, and
    what the call added comes after them.  The bodies are not covered: a
    change of language rewrites the elements with a localization marker
    that the markup of a reply holds. *)
Theorem transcript_append_only (h : Host) (c : Call) (w : World) :
  exists added,
    map entry_frame (messages (fst (run h c w)))
    = map entry_frame (messages w) ++ added.
Proof.
  assert (Hm : forall shown, maintains (extends shown) (run h c))
    by (intros shown; destruct c; cbn [run]; maintain extends_update).
  apply (Hm (map entry_frame (messages w)) w). exists []. now rewrite app_nil_r.
Qed.

Ltac welcome_update :=
  first [ intros ?; assumption | intros _; reflexivity ].

(** X13: the welcome view does not come back: once it is hidden, it is
    hidden after every call on the controller. *)
Theorem welcome_stays_hidden (h : Host) (c : Call) (w : World) :
  welcomeDisplay w = lit "none" ->
  welcomeDisplay (fst (run h c w)) = lit "none".
Proof.
  revert w. change (maintains (fun w => welcomeDisplay w = lit "none") (run h c)).
  destruct c; cbn [run]; maintain welcome_update.
Qed.

Lemma welcome_stays_hidden_witness :
  welcomeDisplay
    (fst (run plain_host (SetMode (lit "gita"))
            (fst (sendMessage plain_host NetworkError home))))
  = lit "none".
Proof.
  apply (welcome_stays_hidden plain_host (SetMode (lit "gita"))
           (fst (sendMessage plain_host NetworkError home))).
  reflexivity.
Defined.

Ltac crisis_update :=
  first [ intros ?; assumption | intros _; reflexivity ].

(** X14: the crisis modal stays until it is dismissed, and only a send or
    the crisis button brings it up: shown, it is shown after every call
    but the click that closes it; not shown, it is not shown after any
    call but a send and the click on the crisis button. *)
Theorem crisis_modal_persists (h : Host) (c : Call) (w : World) :
  (crisisShown w = true -> c <> CloseCrisisModal ->
   crisisShown (fst (run h c w)) = true)
  /\ (crisisShown w = false -> c <> ShowCrisisModal ->
      (forall reply, c <> SendMessage reply) ->
      crisisShown (fst (run h c w)) = false).
Proof.
  split.
  - intros Hshown Hc. revert w Hshown.
    change (maintains (fun w => crisisShown w = true) (run h c)).
    destruct c; cbn [run]; try solve [maintain crisis_update].
    now elim Hc.
  - intros Hhidden Hshow Hsend. revert w Hhidden.
    change (maintains (fun w => crisisShown w = false) (run h c)).
    destruct c; cbn [run]; try solve [maintain crisis_update].
    + now elim (Hsend reply).
    + now elim Hshow.
Qed.

Lemma crisis_modal_persists_witness :
  crisisShown
    (fst (run plain_host (SendMessage NetworkError)
            (set_crisisShown true home)))
  = true
  /\ crisisShown (fst (run plain_host (SetMode (lit "gita")) home)) = false.
Proof.
  split.
  - apply (proj1 (crisis_modal_persists plain_host (SendMessage NetworkError)
                    (set_crisisShown true home))).
    + reflexivity.
    + discriminate.
  - apply (proj2 (crisis_modal_persists plain_host (SetMode (lit "gita"))
                    home)).
    + reflexivity.
    + discriminate.
    + discriminate.
Defined.

(** ** The health check and the send button *)

Lemma ensures_always {A} (P Q : World -> Prop) (m : M A) :
  (forall w, Q (fst (m w))) -> ensures P m Q.
Proof. intros H w _ _. apply H. Qed.

Lemma ensures_after_modify {A} (P P' Q : World -> Prop) (f : World -> World)
      (k : M A) :
  (forall w, P w -> P' (f w)) -> ensures P' k Q ->
  ensures P (modify f ;; k) Q.
Proof. intros Hf Hk w Hw. unfold bind, modify. apply Hk. now apply Hf. Qed.

Lemma keeps_connection_status_text (h : Host) (key fallback : jstring) :
  keeps connection (status_text h key fallback).
Proof. frame. Qed.

Lemma updateConnectionStatus_false (h : Host) (aiEnabled : jvalue) (w : World) :
  connection (fst (updateConnectionStatus h false aiEnabled w)) = (false, true).
Proof.
  unfold updateConnectionStatus. unfold bind at 1 2 3, modify.
  match goal with |- context [status_text h ?k ?f ?w0] =>
    pose proof (keeps_connection_status_text h k f w0) as K;
    destruct (status_text h k f w0) as [w1 [[]|]]
  end; cbn [fst] in *; exact K.
Qed.

(** X15: unless the body of the reply has the status ["healthy"], whatever
    else the reply is and also where the health check ends in an
    exception, the page is disconnected after it: the flag is off and the
    status dot has the class [disconnected]. *)
Theorem checkHealth_not_healthy (h : Host) (reply : Reply) (w : World) :
  ~ reports_healthy h reply ->
  isConnected (fst (checkHealth h reply w)) = false
  /\ statusDisconnected (fst (checkHealth h reply w)) = true.
Proof.
  intros Hnot.
  assert (Q : connection (fst (checkHealth h reply w)) = (false, true)).
  { revert w. unfold checkHealth.
    apply (try_catch_always (fun w => connection w = (false, true)));
      [|intros w; apply updateConnectionStatus_false].
    apply ensures_bind; [apply maintains_True | intros _].
    apply ensures_bind_await. intros ok json ->. cbn [snd].
    apply ensures_bind_lift. intros data ->.
    apply ensures_bind_lift. intros status Hstatus.
    destruct status as [| |b|n|s|elems|props|callable name];
      try (apply ensures_always; intros w; apply updateConnectionStatus_false).
    destruct (eqb s (lit "healthy")) eqn:E;
      [|apply ensures_always; intros w; apply updateConnectionStatus_false].
    apply eqb_eq in E. subst s. elim Hnot. now exists ok, data. }
  unfold connection in Q. now injection Q.
Qed.

Lemma checkHealth_not_healthy_witness :
  isConnected (fst (checkHealth plain_host unhealthy home)) = false
  /\ statusDisconnected (fst (checkHealth plain_host unhealthy home)) = true.
Proof.
  apply (checkHealth_not_healthy plain_host unhealthy home).
  intros (ok & data & E & Hstatus). injection E as _ <-.
  vm_compute in Hstatus. discriminate.
Defined.




Lemma send_settled_ready (w : World) : send_settled w -> send_ready w.
Proof.
  unfold send_settled, send_ready, blank. intros -> H.
  apply orb_false_iff in H as [Hc Hb].
  apply negb_false_iff in Hc. split; [exact Hc|].
  intros E. rewrite E in Hb. discriminate.
Qed.

Lemma ensures_settled_updateConnectionStatus
      (h : Host) (connected : bool) (aiEnabled : jvalue) :
  ensures (fun _ => True) (updateConnectionStatus h connected aiEnabled)
          send_settled.
Proof.
  unfold updateConnectionStatus.
  apply (ensures_after_modify _ (fun w => isConnected w = connected));
    [reflexivity|].
  apply ensures_bind.
  - apply (keeps_maintains isConnected (fun c => c = connected)). frame.
  - intros _ w Hw _. unfold send_settled, blank, modify.
    cbn [fst sendDisabled isConnected inputValue set_sendDisabled].
    now rewrite Hw.
Qed.

Lemma ensures_settled_checkHealth (h : Host) (reply : Reply) :
  ensures (fun _ => True) (checkHealth h reply) send_settled.
Proof.
  unfold checkHealth.
  apply ensures_try_catch;
    [apply maintains_True | | apply ensures_settled_updateConnectionStatus].
  apply ensures_bind; [apply maintains_True | intros _].
  apply ensures_bind_await. intros ok json _.
  apply ensures_bind_lift. intros data _.
  apply ensures_bind_lift. intros status _.
  destruct status; try apply ensures_settled_updateConnectionStatus.
  destruct (eqb _ _); [|apply ensures_settled_updateConnectionStatus].
  apply ensures_bind_lift. intros ai_enabled _.
  apply ensures_settled_updateConnectionStatus.
Qed.

Lemma send_ready_transfer (w w' : World) :
  (sendDisabled w', isConnected w', inputValue w')
  = (sendDisabled w, isConnected w, inputValue w) ->
  send_ready w -> send_ready w'.
Proof. unfold send_ready. intros [= -> -> ->]. auto. Qed.

(** X17: an enabled send button means a connected page and an input with
    text, and every call on the controller keeps it so (a health check,
    where it returns normally): the listeners of the input and the health
    check set the button by the flag and the input, a send disables it,
    and nothing else touches the three. *)
Theorem send_button_follows_state (h : Host) (c : Call) (w : World) :
  send_ready w ->
  (forall reply, c = CheckHealth reply -> snd (run h c w) = Some tt) ->
  send_ready (fst (run h c w)).
Proof.
  intros Hready Hnormal.
  assert (Hkept : keeps (fun w => (sendDisabled w, isConnected w, inputValue w))
                        (run h c) ->
                  send_ready (fst (run h c w)))
    by (intros K; now apply (send_ready_transfer w), Hready).
  destruct c as [reply|reply|mode|langCode reply fallback| |value height| |];
    try solve [apply Hkept; cbn [run]; frame].
  - apply send_settled_ready.
    apply (ensures_settled_checkHealth h reply w I).
    cbn [run] in Hnormal. rewrite (Hnormal reply eq_refl). discriminate.
  - cbn [run].
    destruct (eqb (trim (inputValue w)) []) eqn:Htext.
    { apply eqb_eq in Htext. unfold sendMessage, sendMessage_begin, bind, gets.
      now rewrite Htext. }
    destruct (isConnected w) eqn:Hconnected.
    2:{ unfold sendMessage, sendMessage_begin, bind, gets.
        now rewrite Hconnected, orb_true_r. }
    apply eqb_neq in Htext.
    destruct (sendMessage_begin_begun h w Htext Hconnected)
      as (w1 & E1 & _ & _ & _ & _ & _ & V1 & D1 & _).
    unfold sendMessage, bind. rewrite E1.
    pose proof (keeps_input_sendMessage_request h (trim (inputValue w)) reply
                  w1) as K. cbv beta in K. rewrite D1 in K.
    injection K as _ KD _. intros Henabled. congruence.
  - cbn [run]. unfold on_input, bind, modify, gets, send_ready.
    cbn [fst sendDisabled isConnected inputValue set_inputHeight
           set_sendDisabled set_inputValue].
    intros H. apply orb_false_iff in H as [Ht Hc].
    apply negb_false_iff in Hc. apply negb_false_iff in Ht.
    apply negb_true_iff in Ht. split; [exact Hc|].
    intros E. rewrite E in Ht. discriminate.
Qed.

Lemma send_button_follows_state_witness :
  send_ready (fst (run plain_host (Input (lit "  ") 40) home)).
Proof.
  apply (send_button_follows_state plain_host (Input (lit "  ") 40) home).
  - intros _. split; [reflexivity | discriminate].
  - discriminate.
Defined.

(** ** Switching to a mode that has a control *)

Lemma filter_active_deactivated (controls : list ModeControl) :
  forallb mode_btn controls = true ->
  filter active (deactivated controls) = [].
Proof.
  induction controls as [|c rest IH]; [reflexivity|].
  cbn [forallb]. intros H. apply andb_true_iff in H as [Hc Hrest].
  cbn [deactivated map]. rewrite Hc. cbn [filter active set_active].
  now apply IH.
Qed.

Lemma first_with_mode_from (mode : jstring) (controls : list ModeControl)
      (k i : nat) :
  first_with_mode mode k controls = QControl i -> k <= i.
Proof.
  revert k. induction controls as [|c rest IH]; intros k; [discriminate|].
  cbn [first_with_mode].
  destruct (data_mode c) as [m|];
    [destruct (eqb mode m); [intros [= <-]; lia|]|];
    intros H; apply IH in H; lia.
Qed.

Lemma activate_first_with_mode (mode : jstring) (controls : list ModeControl)
      (k i : nat) :
  forallb mode_btn controls = true ->
  first_with_mode mode k (deactivated controls) = QControl i ->
  map data_mode
      (filter active (update_nth (i - k) (set_active true) (deactivated controls)))
  = [Some mode].
Proof.
  revert k. induction controls as [|c rest IH]; intros k Hall; [discriminate|].
  cbn [forallb] in Hall. apply andb_true_iff in Hall as [Hc Hrest].
  cbn [deactivated map]. fold (deactivated rest). rewrite Hc.
  cbn [first_with_mode data_mode set_active].
  destruct (data_mode c) as [m|] eqn:Hm.
  - destruct (eqb mode m) eqn:E.
    + intros [= <-]. rewrite Nat.sub_diag. cbn [update_nth filter active set_active].
      rewrite filter_active_deactivated by exact Hrest.
      cbn [map data_mode set_active]. apply eqb_eq in E. now rewrite Hm, E.
    + intros H. pose proof (first_with_mode_from _ _ _ _ H) as Hle.
      replace (i - k) with (S (i - S k)) by lia.
      cbn [update_nth filter active set_active]. now apply IH.
  - intros H. pose proof (first_with_mode_from _ _ _ _ H) as Hle.
    replace (i - k) with (S (i - S k)) by lia.
    cbn [update_nth filter active set_active]. now apply IH.
Qed.

Lemma first_with_mode_found (mode : jstring) (controls : list ModeControl)
      (k : nat) :
  (exists c, In c controls /\ data_mode c = Some mode) ->
  exists i, first_with_mode mode k (deactivated controls) = QControl i.
Proof.
  revert k. induction controls as [|c rest IH]; intros k (x & Hin & Hx);
    [now elim Hin|].
  cbn [deactivated map first_with_mode]. fold (deactivated rest).
  replace (data_mode (if mode_btn c then set_active false c else c))
    with (data_mode c) by (destruct (mode_btn c); reflexivity).
  destruct Hin as [<- | Hin].
  - rewrite Hx, eqb_refl. now exists k.
  - assert (Hrest : exists i, first_with_mode mode (S k) (deactivated rest)
                              = QControl i)
      by (apply IH; now exists x).
    destruct (data_mode c) as [m|]; [destruct (eqb mode m)|];
      [now exists k | exact Hrest | exact Hrest].
Qed.

Lemma keeps_controls_updatePlaceholders (h : Host) :
  keeps (fun w => (modeControls w, currentMode w)) (updatePlaceholders h).
Proof. frame. Qed.

(** X18: on a page where every element that carries [data-mode] is one of
    [this.modeButtons], the buttons that the controller collected when it
    was built, [setMode] of a mode that one of them carries leaves exactly
    one control marked active, one that carries the mode, and the mode is
    the current one; this holds also where the refresh of the placeholder
    throws.  A control that is not in [this.modeButtons], one that came
    into the document later, keeps its mark and is outside the
    statement. *)
Theorem setMode_one_active (h : Host) (mode : jstring) (w : World) :
  css_plain mode = true ->
  forallb mode_btn (modeControls w) = true ->
  (exists c, In c (modeControls w) /\ data_mode c = Some mode) ->
  active_modes (fst (setMode h mode w)) = [Some mode]
  /\ currentMode (fst (setMode h mode w)) = mode.
Proof.
  intros Hplain Hall Hsome.
  destruct (first_with_mode_found mode (modeControls w) 0 Hsome) as (i & Hi).
  unfold setMode, bind, modify, gets, query_mode. rewrite Hplain.
  cbn [fst snd modeControls set_modeControls set_currentMode]. rewrite Hi.
  match goal with |- context [updatePlaceholders h ?w0] =>
    pose proof (keeps_controls_updatePlaceholders h w0) as K;
    destruct (updatePlaceholders h w0) as [w' [[]|]]
  end; cbn [fst] in *; injection K as KC KM; unfold active_modes;
    rewrite KC, KM; cbn [modeControls set_modeControls currentMode set_currentMode];
    (split; [|reflexivity]);
    rewrite <- (Nat.sub_0_r i); now apply activate_first_with_mode.
Qed.

Lemma setMode_one_active_witness :
  active_modes (fst (setMode plain_host (lit "gita") home)) = [Some (lit "gita")]
  /\ currentMode (fst (setMode plain_host (lit "gita") home)) = lit "gita".
Proof.
  apply (setMode_one_active plain_host (lit "gita") home).
  - reflexivity.
  - reflexivity.
  - eexists. split; [right; left; reflexivity | reflexivity].
Defined.

(** ** [formatMessage] in general *)

Lemma starts_with_In (p s : jstring) (c : char) :
  starts_with p s = true -> In c p -> In c s.
Proof.
  revert s. induction p as [|x p IH]; intros [|y s]; cbn [starts_with];
    try easy.
  intros H. apply andb_true_iff in H as [Hx Hp]. apply N.eqb_eq in Hx. subst y.
  intros [<- | Hc]; [now left | right; now apply IH].
Qed.

Lemma replace_from_inert (m : matcher) (s : jstring) :
  (forall bol t, incl t s -> m bol t = None) ->
  forall bol, replace_from m 0 bol s = s.
Proof.
  induction s as [|c rest IH]; intros Hm bol; [reflexivity|].
  cbn [replace_from]. rewrite Hm by apply incl_refl.
  f_equal. apply IH. intros b t Ht. apply Hm.
  intros x Hx. right. now apply Ht.
Qed.

(** A rule that needs the code unit [c] at its start finds nothing in a
    text without [c]. *)
Ltac needs c :=
  let bol := fresh "bol" in
  let t := fresh "t" in
  let Ht := fresh "Ht" in
  let E := fresh "E" in
  let Hplain := fresh "Hplain" in
  intros Hplain; unfold replace_all; apply replace_from_inert;
  intros bol t Ht;
  cbv [bold_rule italic_rule break_rule url_rule rule_rule h4_rule h3_rule
       bullet_rule dash_rule list_rule delimited literal line_rule li_item];
  repeat match goal with
         | |- context [starts_with ?p t] =>
             destruct (starts_with p t) eqn:E;
             [ exfalso;
               assert (Hc : is_markup c = false)
                 by (apply Hplain, Ht, (starts_with_In p t c E);
                     cbn; tauto);
               discriminate Hc
             | clear E ]
         end;
  rewrite ?andb_false_r; reflexivity.

Lemma bold_inert (s : jstring) : plain_text s -> replace_all bold_rule s = s.
Proof. needs 42%N. Qed.

Lemma italic_inert (s : jstring) : plain_text s -> replace_all italic_rule s = s.
Proof. needs 42%N. Qed.

Lemma break_inert (s : jstring) : plain_text s -> replace_all break_rule s = s.
Proof. needs 10%N. Qed.

Lemma url_inert (s : jstring) : plain_text s -> replace_all url_rule s = s.
Proof. needs 47%N. Qed.

Lemma rule_inert (s : jstring) : plain_text s -> replace_all rule_rule s = s.
Proof. needs 45%N. Qed.

Lemma h4_inert (s : jstring) : plain_text s -> replace_all h4_rule s = s.
Proof. needs 35%N. Qed.

Lemma h3_inert (s : jstring) : plain_text s -> replace_all h3_rule s = s.
Proof. needs 35%N. Qed.

Lemma bullet_inert (s : jstring) : plain_text s -> replace_all bullet_rule s = s.
Proof. needs 8226%N. Qed.

Lemma dash_inert (s : jstring) : plain_text s -> replace_all dash_rule s = s.
Proof. needs 45%N. Qed.

Lemma list_inert (s : jstring) : plain_text s -> replace_all list_rule s = s.
Proof. needs 60%N. Qed.

(** X19: a text that holds no star, line feed, slash, dash, hash, bullet
    or opening angle comes out of [formatMessage] as it went in. *)
Theorem formatMessage_plain_text (s : jstring) :
  plain_text s -> formatMessage s = s.
Proof.
  intros Hplain. unfold formatMessage. cbv zeta.
  rewrite bold_inert, italic_inert, break_inert, url_inert, rule_inert,
    h4_inert, h3_inert, bullet_inert, dash_inert, list_inert
    by exact Hplain.
  reflexivity.
Qed.

Lemma formatMessage_plain_text_witness :
  formatMessage (lit "You are not alone, I am here.")
  = lit "You are not alone, I am here.".
Proof.
  apply (formatMessage_plain_text (lit "You are not alone, I am here.")).
  intros c Hc. cbn in Hc.
  repeat (destruct Hc as [<- | Hc]; [reflexivity|]). now elim Hc.
Defined.

(** *** No line feed is left *)

Lemma replace_from_Forall (R : char -> Prop) (m : matcher) :
  (forall bol t out n, Forall R t -> m bol t = Some (out, n) -> Forall R out) ->
  forall s skip bol, Forall R s -> Forall R (replace_from m skip bol s).
Proof.
  intros Hm. induction s as [|c rest IH]; intros skip bol Hs; [constructor|].
  pose proof (Forall_inv Hs) as Hc. pose proof (Forall_inv_tail Hs) as Hrest.
  cbn [replace_from]. destruct skip as [|k]; [|now apply IH].
  destruct (m bol (c :: rest)) as [[out [|k]]|] eqn:E.
  - apply Forall_app. split; [exact (Hm _ _ _ _ Hs E)|].
    constructor; [exact Hc | now apply IH].
  - apply Forall_app. split; [exact (Hm _ _ _ _ Hs E) | now apply IH].
  - constructor; [exact Hc | now apply IH].
Qed.

Lemma lazy_dots_until_Forall (R : char -> Prop) (closer s g : jstring) :
  Forall R s -> lazy_dots_until closer s = Some g -> Forall R g.
Proof.
  revert g. induction s as [|c rest IH]; intros g Hs.
  - cbn [lazy_dots_until]. destruct (starts_with closer []);
      [intros [= <-]; constructor | discriminate].
  - cbn [lazy_dots_until]. destruct (starts_with closer (c :: rest));
      [intros [= <-]; constructor|].
    destruct (is_line_terminator c); [discriminate|].
    destruct (lazy_dots_until closer rest) as [g'|]; [|discriminate].
    intros [= <-]. constructor; [exact (Forall_inv Hs)|].
    apply IH; [exact (Forall_inv_tail Hs) | reflexivity].
Qed.

Lemma take_while_Forall (R : char -> Prop) (f : char -> bool) (s : jstring) :
  Forall R s -> Forall R (take_while f s).
Proof.
  induction s as [|c rest IH]; intros Hs; [constructor|].
  cbn [take_while]. destruct (f c); [|constructor].
  constructor; [exact (Forall_inv Hs) | apply IH, (Forall_inv_tail Hs)].
Qed.

Lemma skipn_Forall (R : char -> Prop) (n : nat) (s : jstring) :
  Forall R s -> Forall R (skipn n s).
Proof.
  revert s. induction n as [|n IH]; intros [|c rest] Hs; cbn [skipn];
    try assumption. apply IH, (Forall_inv_tail Hs).
Qed.

Lemma firstn_Forall (R : char -> Prop) (n : nat) (s : jstring) :
  Forall R s -> Forall R (firstn n s).
Proof.
  revert s. induction n as [|n IH]; intros [|c rest] Hs; cbn [firstn];
    try constructor; [exact (Forall_inv Hs) | apply IH, (Forall_inv_tail Hs)].
Qed.

Lemma lit_not_LF (s : jstring) :
  forallb (fun c => negb (N.eqb c LF)) s = true -> Forall not_LF s.
Proof.
  intros H. apply Forall_forall. intros c Hc.
  rewrite forallb_forall in H. specialize (H c Hc).
  apply negb_true_iff, N.eqb_neq in H. exact H.
Qed.

(** The pieces a rule builds its replacement from hold no line feed. *)
Ltac no_LF :=
  repeat first
    [ apply Forall_app; split
    | apply lit_not_LF; reflexivity
    | eapply lazy_dots_until_Forall; [|eassumption]
    | apply take_while_Forall
    | apply skipn_Forall
    | apply firstn_Forall
    | assumption
    | apply Forall_nil
    | apply Forall_cons; [unfold not_LF, LF, DQUOTE; discriminate|] ].

Lemma delimited_not_LF (delim before after : jstring) :
  Forall not_LF before -> Forall not_LF after ->
  forall bol t out n,
    Forall not_LF t -> delimited delim before after bol t = Some (out, n) ->
    Forall not_LF out.
Proof.
  intros Hb Ha bol t out n Ht. unfold delimited.
  destruct (starts_with delim t); [|discriminate].
  destruct (lazy_dots_until _ _) eqn:E; [|discriminate].
  intros [= <- _]. no_LF.
Qed.

Lemma literal_not_LF (pat text : jstring) :
  Forall not_LF text ->
  forall bol t out n,
    Forall not_LF t -> literal pat text bol t = Some (out, n) ->
    Forall not_LF out.
Proof.
  intros Hx bol t out n Ht. unfold literal.
  destruct (starts_with pat t); [|discriminate]. now intros [= <- _].
Qed.

Lemma line_rule_not_LF (prefix before after : jstring) :
  Forall not_LF before -> Forall not_LF after ->
  forall bol t out n,
    Forall not_LF t -> line_rule prefix before after bol t = Some (out, n) ->
    Forall not_LF out.
Proof.
  intros Hb Ha bol t out n Ht. unfold line_rule.
  destruct (_ && _); [|discriminate]. intros [= <- _]. no_LF.
Qed.

Lemma url_rule_not_LF (bol : bool) (t out : jstring) (n : nat) :
  Forall not_LF t -> url_rule bol t = Some (out, n) -> Forall not_LF out.
Proof.
  intros Ht. unfold url_rule.
  assert (Hu : forall p, Forall not_LF p ->
                 forall u,
                   (if starts_with p t
                    then match take_while is_url_char (skipn (length p) t) with
                         | [] => None
                         | tail => Some (p ++ tail)
                         end
                    else None) = Some u -> Forall not_LF u).
  { intros p Hp u. destruct (starts_with p t); [|discriminate].
    destruct (take_while _ _) eqn:E; [discriminate|].
    intros [= <-]. rewrite <- E. no_LF. }
  match goal with
  | |- match match ?a with _ => _ end with _ => _ end = _ -> _ =>
      destruct a as [u|] eqn:E1
  end.
  - apply Hu in E1; [|no_LF]. intros [= <- _]. no_LF.
  - match goal with
    | |- match ?a with _ => _ end = _ -> _ => destruct a as [u|] eqn:E2
    end; [|discriminate].
    apply Hu in E2; [|no_LF]. intros [= <- _]. no_LF.
Qed.

Lemma list_rule_not_LF (bol : bool) (t out : jstring) (n : nat) :
  Forall not_LF t -> list_rule bol t = Some (out, n) -> Forall not_LF out.
Proof.
  intros Ht. unfold list_rule. destruct (li_item t); [|discriminate].
  intros [= <- _]. no_LF.
Qed.

Lemma break_rule_not_LF (s : jstring) (bol : bool) :
  Forall not_LF (replace_from break_rule 0 bol s).
Proof.
  revert bol. induction s as [|c rest IH]; intros bol; [constructor|].
  cbn [replace_from]. unfold break_rule at 1, literal.
  cbn [starts_with length].
  destruct (N.eqb LF c) eqn:E; cbn [andb]; cbv iota.
  - apply Forall_app. split; [no_LF | apply IH].
  - constructor; [|apply IH]. apply N.eqb_neq in E. intros H. now symmetry in H.
Qed.

(** X20: what [formatMessage] returns holds no line feed, whatever the
    text: every one has become a [<br>], and no rule brings one in. *)
Theorem formatMessage_no_line_feed (s : jstring) :
  ~ In LF (formatMessage s).
Proof.
  assert (H : Forall not_LF (formatMessage s)).
  { unfold formatMessage. cbv zeta. unfold replace_all.
    apply replace_from_Forall; [apply list_rule_not_LF|].
    apply replace_from_Forall; [apply line_rule_not_LF; no_LF|].
    apply replace_from_Forall; [apply line_rule_not_LF; no_LF|].
    apply replace_from_Forall; [apply line_rule_not_LF; no_LF|].
    apply replace_from_Forall; [apply line_rule_not_LF; no_LF|].
    apply replace_from_Forall; [apply literal_not_LF; no_LF|].
    apply replace_from_Forall; [apply url_rule_not_LF|].
    apply break_rule_not_LF. }
  intros Hin. rewrite Forall_forall in H. now apply (H LF Hin).
Qed.

(** ** [t]: one placeholder *)

Lemma substitute_app_plain (h : Host) (params : jvalue) (before rest : jstring) :
  ~ In 123%N before ->
  substitute h params 0 (before ++ rest)
  = option_map (app before) (substitute h params 0 rest).
Proof.
  induction before as [|c before IH]; intros Hplain.
  - cbn [app]. now destruct (substitute h params 0 rest).
  - cbn [app substitute]. rewrite placeholder_needs_brace
      by (intros ->; apply Hplain; now left).
    rewrite IH by (intros Hin; apply Hplain; now right).
    now destruct (substitute h params 0 rest).
Qed.

Lemma substitute_skip (h : Host) (params : jvalue) (skipped rest : jstring) :
  substitute h params (length skipped) (skipped ++ rest)
  = substitute h params 0 rest.
Proof.
  induction skipped as [|c skipped IH]; [reflexivity|].
  cbn [length app substitute]. exact IH.
Qed.

Lemma take_while_app_stop (f : char -> bool) (run : jstring) (x : char)
      (rest : jstring) :
  forallb f run = true -> f x = false ->
  take_while f (run ++ x :: rest) = run.
Proof.
  intros Hrun Hx. induction run as [|c run IH]; cbn [app take_while].
  - now rewrite Hx.
  - cbn [forallb] in Hrun. apply andb_true_iff in Hrun as [Hc Hrun].
    rewrite Hc. f_equal. now apply IH.
Qed.

Lemma skipn_length_app (a b : jstring) : skipn (length a) (a ++ b) = b.
Proof. induction a as [|c a IH]; [reflexivity | exact IH]. Qed.

Lemma firstn_length_app (a b : jstring) : firstn (length a) (a ++ b) = a.
Proof. induction a as [|c a IH]; [reflexivity | cbn; now rewrite IH]. Qed.

Lemma braces_length (name : jstring) :
  length (braces name) = 2 + length name + 2.
Proof. unfold braces. rewrite !length_app. reflexivity. Qed.

Lemma placeholder_exact (name after : jstring) :
  name <> [] -> forallb is_word name = true ->
  placeholder (braces name ++ after) = Some (name, length (braces name)).
Proof.
  intros Hname Hword.
  rewrite braces_length. unfold placeholder, braces.
  change (lit "{{") with [123%N; 123%N]. change (lit "}}") with [125%N; 125%N].
  rewrite <- !app_assoc.
  cbn [app starts_with skipn Nat.add]. rewrite !N.eqb_refl. cbn [andb].
  rewrite take_while_app_stop by (exact Hword || reflexivity).
  destruct name as [|c name]; [now elim Hname|].
  cbn [length Nat.add skipn app]. rewrite skipn_length_app.
  cbn [starts_with]. rewrite !N.eqb_refl. reflexivity.
Qed.

Lemma substitute_one (h : Host) (params : jvalue) (before name after : jstring) :
  ~ In 123%N before -> ~ In 123%N after ->
  name <> [] -> forallb is_word name = true ->
  substitute h params 0 (before ++ braces name ++ after)
  = option_map (fun text => before ++ text ++ after)
               (param_text h params name (braces name)).
Proof.
  intros Hbefore Hafter Hname Hword.
  rewrite substitute_app_plain by exact Hbefore.
  assert (E : substitute h params 0 (braces name ++ after)
              = option_map (fun text => text ++ after)
                           (param_text h params name (braces name))).
  { pose proof (placeholder_exact name after Hname Hword) as Hp.
    destruct (braces name ++ after) as [|c rest] eqn:Es.
    - unfold braces in Es. discriminate.
    - cbn [substitute]. rewrite Hp. rewrite <- Es.
      rewrite firstn_length_app.
      assert (Hrest : exists skipped,
                 rest = skipped ++ after /\ length skipped = length (braces name) - 1).
      { rewrite braces_length. unfold braces in Es.
        change (lit "{{") with [123%N; 123%N] in Es.
        cbn [app] in Es. injection Es as _ <-.
        exists (123%N :: name ++ lit "}}"). split.
        - cbn [app]. now rewrite <- app_assoc.
        - cbn [length]. rewrite length_app.
          change (length (lit "}}")) with 2. lia. }
      destruct Hrest as (skipped & -> & <-).
      rewrite substitute_skip, substitute_plain by exact Hafter.
      now destruct (param_text h params name (braces name)). }
  rewrite E. now destruct (param_text h params name (braces name)).
Qed.

(** X21: for a leaf with one placeholder and no other brace, and the
    parameters given as an object: an entry of the name that is a
    non-empty string takes the place of the placeholder, the rest of the
    leaf staying as it is; with no entry of the name, own or inherited,
    the leaf is returned as it is. *)
Theorem t_one_placeholder
  (h : Host) (table : jvalue) (key : jstring)
  (props : list (jstring * jvalue)) (before name after : jstring) :
  (forall k, In k (split DOT key) -> host_free h k) ->
  resolve table (split DOT key) = Some (JStr (before ++ braces name ++ after)) ->
  ~ In 123%N before -> ~ In 123%N after ->
  name <> [] -> forallb is_word name = true ->
  (forall v, assoc name props = Some (JStr v) -> v <> [] ->
             t h table key (JObj props) = Some (JStr (before ++ v ++ after)))
  /\ (assoc name props = None -> inherited h (JObj props) name = None ->
      t h table key (JObj props)
      = Some (JStr (before ++ braces name ++ after))).
Proof.
  intros Hfree Hleaf Hbefore Hafter Hname Hword.
  assert (E : t h table key (JObj props)
              = option_map (fun text => JStr (before ++ text ++ after))
                           (param_text h (JObj props) name (braces name))).
  { unfold t. rewrite walk_resolve by exact Hfree. rewrite Hleaf.
    rewrite substitute_one by assumption.
    now destruct (param_text h (JObj props) name (braces name)). }
  rewrite E. unfold param_text, member, get_property. cbn [own_property].
  split.
  - intros v -> Hv. apply eqb_neq in Hv. cbn [truthy to_string].
    now rewrite Hv.
  - intros -> ->. reflexivity.
Qed.

Lemma t_one_placeholder_witness :
  t plain_host greeting_table (lit "greeting")
    (JObj [(lit "name", JStr (lit "Asha"))])
  = Some (JStr (lit "Namaste, " ++ lit "Asha" ++ lit "!"))
  /\ t plain_host greeting_table (lit "greeting") (JObj [])
     = Some (JStr (lit "Namaste, " ++ braces (lit "name") ++ lit "!")).
Proof.
  assert (H := t_one_placeholder plain_host greeting_table (lit "greeting")).
  split.
  - refine (proj1 (H [(lit "name", JStr (lit "Asha"))] (lit "Namaste, ")
                     (lit "name") (lit "!") _ _ _ _ _ _)
                  (lit "Asha") _ _);
      try reflexivity; try discriminate;
      try (cbn; intuition discriminate).
    intros k [<-|[]]. split; [discriminate | intros v; reflexivity].
  - refine (proj2 (H [] (lit "Namaste, ") (lit "name") (lit "!") _ _ _ _ _ _)
                  _ _);
      try reflexivity; try discriminate;
      try (cbn; intuition discriminate).
    intros k [<-|[]]. split; [discriminate | intros v; reflexivity].
Defined.

(** ** How the calls compose *)

(** X22: after a health check whose reply does not report a healthy
    service, a send does nothing, whatever is in the input: the page is as
    the health check left it, no entry and no request added. *)
Theorem no_send_after_failed_health_check
  (h : Host) (health reply : Reply) (w : World) :
  ~ reports_healthy h health ->
  sendMessage h reply (fst (checkHealth h health w))
  = (fst (checkHealth h health w), Some tt).
Proof.
  intros Hnot.
  assert (Q : connection (fst (checkHealth h health w)) = (false, true)).
  { revert w. unfold checkHealth.
    apply (try_catch_always (fun w => connection w = (false, true)));
      [|intros w; apply updateConnectionStatus_false].
    apply ensures_bind; [apply maintains_True | intros _].
    apply ensures_bind_await. intros ok json ->. cbn [snd].
    apply ensures_bind_lift. intros data ->.
    apply ensures_bind_lift. intros status Hstatus.
    destruct status as [| |b|n|s|elems|props|callable name];
      try (apply ensures_always; intros w; apply updateConnectionStatus_false).
    destruct (eqb s (lit "healthy")) eqn:E;
      [|apply ensures_always; intros w; apply updateConnectionStatus_false].
    apply eqb_eq in E. subst s. elim Hnot. now exists ok, data. }
  unfold connection in Q. injection Q as Hflag _.
  unfold sendMessage, sendMessage_begin, bind, gets.
  now rewrite Hflag, orb_true_r.
Qed.

Lemma no_send_after_failed_health_check_witness :
  sendMessage plain_host NetworkError (fst (checkHealth plain_host unhealthy home))
  = (fst (checkHealth plain_host unhealthy home), Some tt).
Proof.
  apply (no_send_after_failed_health_check plain_host unhealthy NetworkError
           home).
  intros (ok & data & E & Hstatus). injection E as _ <-.
  vm_compute in Hstatus. discriminate.
Defined.

(** X23: a send right after a send does nothing: the first one has left
    the input empty if it went through, and the guard as it was if it did
    not, so the second one adds no entry and makes no request. *)
Theorem second_send_does_nothing (h : Host) (reply reply' : Reply) (w : World) :
  sendMessage h reply' (fst (sendMessage h reply w))
  = (fst (sendMessage h reply w), Some tt).
Proof.
  assert (Hguard : forall w0,
             trim (inputValue w0) = [] \/ isConnected w0 = false ->
             sendMessage h reply' w0 = (w0, Some tt)).
  { intros w0 H. unfold sendMessage, sendMessage_begin, bind, gets.
    destruct H as [-> | ->]; [reflexivity | now rewrite orb_true_r]. }
  destruct (eqb (trim (inputValue w)) []) eqn:Htext.
  { apply eqb_eq in Htext.
    assert (E : sendMessage h reply w = (w, Some tt)).
    { unfold sendMessage, sendMessage_begin, bind, gets. now rewrite Htext. }
    rewrite E. apply Hguard. now left. }
  destruct (isConnected w) eqn:Hconnected.
  2:{ assert (E : sendMessage h reply w = (w, Some tt)).
      { unfold sendMessage, sendMessage_begin, bind, gets.
        now rewrite Hconnected, orb_true_r. }
      rewrite E. apply Hguard. now right. }
  apply eqb_neq in Htext.
  destruct (sendMessage_begin_begun h w Htext Hconnected)
    as (w1 & E1 & _ & _ & _ & _ & _ & V1 & _).
  apply Hguard. left.
  unfold sendMessage, bind. rewrite E1.
  pose proof (keeps_input_sendMessage_request h (trim (inputValue w)) reply w1)
    as K. cbv beta in K. injection K as KV _ _. now rewrite KV, V1.
Qed.

(** X24: choosing the same language twice is choosing it once: after
    [setLanguage] of a code, whatever the replies, a second [setLanguage]
    of that code changes nothing and asks nothing of the environment. *)
Theorem setLanguage_twice
  (h : Host) (langCode : jstring) (reply fallback reply' fallback' : Reply)
  (w : World) (this : I18n) :
  window_i18n w = Some this ->
  setLanguage h langCode reply' fallback'
    (fst (setLanguage h langCode reply fallback w))
  = (fst (setLanguage h langCode reply fallback w), Some tt).
Proof.
  intros Hthis.
  assert (Hsame : forall w0, language w0 = Some langCode ->
                    setLanguage h langCode reply' fallback' w0 = (w0, Some tt)).
  { intros w0 H0. unfold language in H0. unfold setLanguage, bind, this_i18n.
    destruct (window_i18n w0) as [this0|]; [|discriminate].
    cbn [option_map] in H0. injection H0 as ->. now rewrite eqb_refl. }
  apply Hsame.
  destruct (eqb (currentLanguage this) langCode) eqn:E.
  - unfold setLanguage, bind, this_i18n, ret. rewrite Hthis, E. cbn [fst].
    unfold language. rewrite Hthis. cbn. apply eqb_eq in E. now rewrite E.
  - apply eqb_neq in E.
    destruct (setLanguage_outcome h langCode reply fallback w this Hthis E)
      as (w1 & -> & _ & L). exact L.
Qed.

Lemma setLanguage_twice_witness :
  setLanguage plain_host (lit "hi") NetworkError NetworkError
    (fst (setLanguage plain_host (lit "hi") (Responded true (Some hindi))
            NetworkError home))
  = (fst (setLanguage plain_host (lit "hi") (Responded true (Some hindi))
            NetworkError home), Some tt).
Proof.
  apply (setLanguage_twice plain_host (lit "hi") (Responded true (Some hindi))
           NetworkError NetworkError NetworkError home
           {| currentLanguage := lit "en"; translations := english |}).
  reflexivity.
Defined.

(** ** Where the error handling has nothing to show *)

Lemma sendMessage_request_unanswered (h : Host) (message : jstring)
      (reply : Reply) (w : World) :
  unanswered h reply ->
  exists w2,
    sendMessage_request h message reply w = sendMessage_catch h w2
    /\ messages w2 = messages w
    /\ window_i18n w2 = window_i18n w
    /\ crisisShown w2 = crisisShown w.
Proof.
  intros [-> | [[json ->] | Hreply]].
  - eexists. split; [reflexivity|]. repeat split.
  - eexists. split; [reflexivity|]. repeat split.
  - now apply sendMessage_request_unusable.
Qed.

Lemma sendMessage_catch_throws (h : Host) (w : World) :
  no_error_string h w ->
  exists w',
    sendMessage_catch h w = (w', None)
    /\ messages w' = messages w
    /\ loadingShown w' = false
    /\ crisisShown w' = crisisShown w.
Proof.
  intros (this & Hthis & Ht).
  unfold sendMessage_catch, hideLoading. unfold bind at 1 2, modify, gets.
  cbn [window_i18n set_loadingShown]. rewrite Hthis.
  unfold call_t. unfold bind, lift, this_i18n.
  cbn [window_i18n set_loadingShown]. rewrite Hthis.
  destruct (t h (translations this) (lit "app.error") JUndefined) as [v|].
  - rewrite addMessage_not_a_string by exact Ht.
    eexists. split; [reflexivity|]. repeat split.
  - eexists. split; [reflexivity|]. repeat split.
Qed.

(** X25: on a page that has no generic error string ([window.i18n] is
    there, and [t] makes of [app.error] a value that is no string, or
    throws), a send that passes the guard and whose request fails or
    brings a reply of no use ends in an exception: the [catch] block
    itself throws.  The user's entry is the only one added, the loading
    overlay is hidden and the crisis modal is as it was. *)
Theorem sendMessage_without_error_string
  (h : Host) (reply : Reply) (w : World) :
  trim (inputValue w) <> [] ->
  isConnected w = true ->
  unanswered h reply ->
  no_error_string h w ->
  exists w',
    sendMessage h reply w = (w', None)
    /\ messages w' = messages w ++ [user_entry (trim (inputValue w))]
    /\ loadingShown w' = false
    /\ crisisShown w' = crisisShown w.
Proof.
  intros Htext Hconnected Hreply Herror.
  destruct (sendMessage_begin_begun h w Htext Hconnected)
    as (w1 & E1 & M1 & I1 & _ & C1 & _).
  destruct (sendMessage_request_unanswered h (trim (inputValue w)) reply w1
              Hreply) as (w2 & E2 & M2 & I2 & C2).
  assert (Herror2 : no_error_string h w2)
    by (unfold no_error_string in *; now rewrite I2, I1).
  destruct (sendMessage_catch_throws h w2 Herror2) as (w' & E & M & L & C).
  exists w'. unfold sendMessage, bind. rewrite E1, E2, E.
  rewrite M, M2, M1, C, C2, C1. auto.
Qed.

Lemma sendMessage_without_error_string_witness :
  exists w',
    sendMessage plain_host (Responded false None) grouped_page = (w', None)
    /\ messages w'
       = messages grouped_page ++ [user_entry (trim (inputValue grouped_page))]
    /\ loadingShown w' = false
    /\ crisisShown w' = crisisShown grouped_page.
Proof.
  apply (sendMessage_without_error_string plain_host (Responded false None)
           grouped_page).
  - discriminate.
  - reflexivity.
  - right. left. exists None. reflexivity.
  - eexists. split; reflexivity.
Defined.

Lemma updateConnectionStatus_true_throws (h : Host) (aiEnabled : jvalue)
      (w : World) :
  no_status_text h w aiEnabled ->
  exists w',
    updateConnectionStatus h true aiEnabled w = (w', None)
    /\ effects w' = effects w.
Proof.
  intros (this & Hthis & Ht). unfold status_key in Ht.
  unfold updateConnectionStatus.
  assert (Hai : truthy match aiEnabled with
                       | JUndefined => JBool false
                       | v => v
                       end = truthy aiEnabled)
    by (destruct aiEnabled; reflexivity).
  rewrite Hai. clear Hai.
  destruct (truthy aiEnabled); cbv iota in Ht;
    unfold status_text, call_t, bind, gets, this_i18n, lift, modify, ret;
    do 2 (cbn [window_i18n set_isConnected set_statusDisconnected];
          rewrite ?Hthis; cbv beta iota);
    (destruct (t h (translations this) _ JUndefined) as [v|];
     cbv beta iota; [rewrite Ht|]);
    eexists; (split; [reflexivity|]); reflexivity.
Qed.

Lemma keeps_effects_updateConnectionStatus
      (h : Host) (connected : bool) (aiEnabled : jvalue) :
  keeps effects (updateConnectionStatus h connected aiEnabled).
Proof. frame. Qed.

(** X26: on a page that has no status text for a connected page (what [t]
    makes of the status key cannot be assigned to [textContent], or [t]
    throws), also a reply whose body has the status ["healthy"] leaves the
    page disconnected: the assignment throws inside the [try], and the
    [catch] block sets the flag off and the class [disconnected] on the
    status dot.  The health check has made its one request. *)
Theorem checkHealth_healthy_without_status_text
  (h : Host) (ok : bool) (data : jvalue) (w : World) :
  member h data (lit "status") = Some (JStr (lit "healthy")) ->
  no_status_text h w (get_property h data (lit "ai_enabled")) ->
  let w' := fst (checkHealth h (Responded ok (Some data)) w) in
  isConnected w' = false
  /\ statusDisconnected w' = true
  /\ effects w' = effects w ++ [Fetch (lit "/api/health")].
Proof.
  intros Hhealthy Hstatus.
  assert (E : exists w1,
             checkHealth h (Responded ok (Some data)) w
             = updateConnectionStatus h false JUndefined w1
             /\ effects w1 = effects w ++ [Fetch (lit "/api/health")]).
  { unfold checkHealth, try_catch.
    unfold bind at 1 2 3 4, emit, modify, await_reply, ret, lift.
    cbn [fst snd]. rewrite Hhealthy. cbv beta iota. rewrite eqb_refl.
    unfold bind at 1, lift.
    rewrite (member_get h data _ (lit "status") (lit "ai_enabled") Hhealthy).
    match goal with |- context [updateConnectionStatus h true ?ai ?w0] =>
      destruct (updateConnectionStatus_true_throws h ai w0)
        as (w1 & -> & Ef); [exact Hstatus|]
    end.
    exists w1. split; [reflexivity | exact Ef]. }
  destruct E as (w1 & E & Ef). intros w'. subst w'. rewrite E.
  pose proof (updateConnectionStatus_false h JUndefined w1) as Q.
  pose proof (keeps_effects_updateConnectionStatus h false JUndefined w1) as K.
  unfold connection in Q. injection Q as Q1 Q2.
  rewrite Q1, Q2, K, Ef. auto.
Qed.

Lemma checkHealth_healthy_without_status_text_witness :
  let w' := fst (checkHealth plain_host (Responded true (Some healthy_limited))
                   unreadable_page) in
  isConnected w' = false
  /\ statusDisconnected w' = true
  /\ effects w' = effects unreadable_page ++ [Fetch (lit "/api/health")].
Proof.
  apply (checkHealth_healthy_without_status_text plain_host true
           healthy_limited unreadable_page).
  - reflexivity.
  - eexists. split; reflexivity.
Defined.
